(** * PulseSensor heart-rate driver: a shallow embedding of [HeartRate.c]

    The driver keeps one [pulse_sensor_t] structure per sensor and updates
    it once per ADC sample.  This development translates the structure
    of [HeartRate.h] and the functions of [HeartRate.c] into Rocq, with
    the fixed-width C integers written as [Z] and their wrap-around made
    explicit, and the [float] fields as IEEE-754 binary32 values from the
    Standard Library's [SpecFloat].  *)

From Stdlib Require Import ZArith Lia Bool.
From Stdlib Require Import Floats.SpecFloat.
From stdpp Require Import base numbers list.

Local Open Scope Z_scope.

(** ** Fixed-width unsigned integers *)

Definition u8 (z : Z) : Z := z mod 2 ^ 8.
Definition u32 (z : Z) : Z := z mod 2 ^ 32.
Definition u64 (z : Z) : Z := z mod 2 ^ 64.

Definition UINT32_MAX : Z := 2 ^ 32 - 1.

Definition is_u8 (z : Z) : Prop := 0 <= z < 2 ^ 8.
Definition is_u32 (z : Z) : Prop := 0 <= z < 2 ^ 32.
Definition is_u64 (z : Z) : Prop := 0 <= z < 2 ^ 64.

(** ** [float]: IEEE-754 binary32, round to nearest even

    The target (nRF, ARM Cortex-M) evaluates [float] expressions in
    [float] precision.  A literal such as [0.6] is a [double] constant
    that the assignment converts to [float]. *)

Module F32.
Definition prec : Z := 24.
Definition emax : Z := 128.

Definition t : Type := spec_float.

Definition lt (x y : t) : bool := SFltb x y.
Definition gt (x y : t) : bool := SFltb y x.
Definition add (x y : t) : t := SFadd prec emax x y.
Definition sub (x y : t) : t := SFsub prec emax x y.
Definition div (x y : t) : t := SFdiv prec emax x y.

(** Conversion of an [int] operand to [float]. *)
Definition of_int (z : Z) : t := binary_normalize prec emax z 0 false.

(** A decimal literal [n/d] read as a [double] constant. *)
Definition double_lit (n d : Z) : spec_float :=
  SFdiv 53 1024 (binary_normalize 53 1024 n 0 false)
                (binary_normalize 53 1024 d 0 false).

(** Conversion [double -> float] on assignment. *)
Definition of_double (x : spec_float) : t :=
  match x with
  | S754_finite s m e => binary_normalize prec emax (cond_Zopp s (Zpos m)) e s
  | _ => x
  end.

(** [0.6] and [0.12] as stored in a [float] field. *)
Definition c0_6 : t := Eval vm_compute in of_double (double_lit 6 10).
Definition c0_12 : t := Eval vm_compute in of_double (double_lit 12 100).
End F32.

(** ** The sensor handle, [pulse_sensor_t] of [HeartRate.h] *)

Record pulse_sensor_t : Type := mk_pulse_sensor {
  signal : F32.t;          (* float    *)
  BPM : Z;                 (* uint8_t  *)
  IBI : Z;                 (* uint32_t *)
  pulse : bool;
  start_of_beat : bool;
  thresh_setting : F32.t;  (* float    *)
  amplitude : F32.t;       (* float    *)
  last_beat_time : Z;      (* uint64_t *)
  rate : list Z;           (* uint32_t rate[10] *)
  sample_counter : Z;      (* uint64_t *)
  N : Z;                   (* uint64_t *)
  peak : F32.t;            (* float    *)
  trough : F32.t;          (* float    *)
  thresh : F32.t;          (* float    *)
  first_beat : bool;
  second_beat : bool
}.

(** A handle is well typed when every integer field is in the range of
    its C type and the history has its ten slots. *)
Record well_typed (PS : pulse_sensor_t) : Prop := mk_well_typed {
  wt_BPM : is_u8 (BPM PS);
  wt_IBI : is_u32 (IBI PS);
  wt_last_beat_time : is_u64 (last_beat_time PS);
  wt_rate_length : length (rate PS) = 10%nat;
  wt_rate : Forall is_u32 (rate PS);
  wt_sample_counter : is_u64 (sample_counter PS);
  wt_N : is_u64 (N PS)
}.

(** Field assignments [PS->f = v]. *)
Definition set_signal (v : F32.t) (PS : pulse_sensor_t) : pulse_sensor_t :=
  let '(mk_pulse_sensor _ b c d e f g h i j k l m n o p) := PS in
  mk_pulse_sensor v b c d e f g h i j k l m n o p.
Definition set_BPM (v : Z) (PS : pulse_sensor_t) : pulse_sensor_t :=
  let '(mk_pulse_sensor a _ c d e f g h i j k l m n o p) := PS in
  mk_pulse_sensor a v c d e f g h i j k l m n o p.
Definition set_IBI (v : Z) (PS : pulse_sensor_t) : pulse_sensor_t :=
  let '(mk_pulse_sensor a b _ d e f g h i j k l m n o p) := PS in
  mk_pulse_sensor a b v d e f g h i j k l m n o p.
Definition set_pulse (v : bool) (PS : pulse_sensor_t) : pulse_sensor_t :=
  let '(mk_pulse_sensor a b c _ e f g h i j k l m n o p) := PS in
  mk_pulse_sensor a b c v e f g h i j k l m n o p.
Definition set_start_of_beat (v : bool) (PS : pulse_sensor_t) : pulse_sensor_t :=
  let '(mk_pulse_sensor a b c d _ f g h i j k l m n o p) := PS in
  mk_pulse_sensor a b c d v f g h i j k l m n o p.
Definition set_thresh_setting (v : F32.t) (PS : pulse_sensor_t) : pulse_sensor_t :=
  let '(mk_pulse_sensor a b c d e _ g h i j k l m n o p) := PS in
  mk_pulse_sensor a b c d e v g h i j k l m n o p.
Definition set_amplitude (v : F32.t) (PS : pulse_sensor_t) : pulse_sensor_t :=
  let '(mk_pulse_sensor a b c d e f _ h i j k l m n o p) := PS in
  mk_pulse_sensor a b c d e f v h i j k l m n o p.
Definition set_last_beat_time (v : Z) (PS : pulse_sensor_t) : pulse_sensor_t :=
  let '(mk_pulse_sensor a b c d e f g _ i j k l m n o p) := PS in
  mk_pulse_sensor a b c d e f g v i j k l m n o p.
Definition set_rate (v : list Z) (PS : pulse_sensor_t) : pulse_sensor_t :=
  let '(mk_pulse_sensor a b c d e f g h _ j k l m n o p) := PS in
  mk_pulse_sensor a b c d e f g h v j k l m n o p.
Definition set_sample_counter (v : Z) (PS : pulse_sensor_t) : pulse_sensor_t :=
  let '(mk_pulse_sensor a b c d e f g h i _ k l m n o p) := PS in
  mk_pulse_sensor a b c d e f g h i v k l m n o p.
Definition set_N (v : Z) (PS : pulse_sensor_t) : pulse_sensor_t :=
  let '(mk_pulse_sensor a b c d e f g h i j _ l m n o p) := PS in
  mk_pulse_sensor a b c d e f g h i j v l m n o p.
Definition set_peak (v : F32.t) (PS : pulse_sensor_t) : pulse_sensor_t :=
  let '(mk_pulse_sensor a b c d e f g h i j k _ m n o p) := PS in
  mk_pulse_sensor a b c d e f g h i j k v m n o p.
Definition set_trough (v : F32.t) (PS : pulse_sensor_t) : pulse_sensor_t :=
  let '(mk_pulse_sensor a b c d e f g h i j k l _ n o p) := PS in
  mk_pulse_sensor a b c d e f g h i j k l v n o p.
Definition set_thresh (v : F32.t) (PS : pulse_sensor_t) : pulse_sensor_t :=
  let '(mk_pulse_sensor a b c d e f g h i j k l m _ o p) := PS in
  mk_pulse_sensor a b c d e f g h i j k l m v o p.
Definition set_first_beat (v : bool) (PS : pulse_sensor_t) : pulse_sensor_t :=
  let '(mk_pulse_sensor a b c d e f g h i j k l m n _ p) := PS in
  mk_pulse_sensor a b c d e f g h i j k l m n v p.
Definition set_second_beat (v : bool) (PS : pulse_sensor_t) : pulse_sensor_t :=
  let '(mk_pulse_sensor a b c d e f g h i j k l m n o _) := PS in
  mk_pulse_sensor a b c d e f g h i j k l m n o v.

(** ** The history array as memory

    [memset] works on bytes.  [rate] is an array of ten 4-byte words, so
    the array is laid out as forty bytes in the byte order of the
    target; the nRF parts are little-endian, and the development keeps
    the byte order as a parameter. *)

Inductive byte_order : Type := LittleEndian | BigEndian.

Definition bytes_of_u32 (o : byte_order) (w : Z) : list Z :=
  let le := [w mod 256; (w / 256) mod 256; (w / 65536) mod 256;
             (w / 16777216) mod 256] in
  match o with LittleEndian => le | BigEndian => reverse le end.

Definition u32_of_bytes (o : byte_order) (b0 b1 b2 b3 : Z) : Z :=
  match o with
  | LittleEndian => b0 + 256 * b1 + 65536 * b2 + 16777216 * b3
  | BigEndian => b3 + 256 * b2 + 65536 * b1 + 16777216 * b0
  end.

Definition bytes_of_words (o : byte_order) (ws : list Z) : list Z :=
  concat (map (bytes_of_u32 o) ws).

Fixpoint words_of_bytes (o : byte_order) (bs : list Z) : list Z :=
  match bs with
  | b0 :: b1 :: b2 :: b3 :: bs' => u32_of_bytes o b0 b1 b2 b3 :: words_of_bytes o bs'
  | _ => []
  end.

(** [memset(p, c, n)] on a region at least [n] bytes long: the first [n]
    bytes become [(unsigned char) c]. *)
Definition memset (bs : list Z) (c : Z) (n : nat) : list Z :=
  replicate n (c mod 256) ++ drop n bs.

(** What [memset(PS->rate, 0, 10)] leaves in the word that holds bytes
    8 to 11: two of its four bytes are cleared. *)
Definition half_cleared (o : byte_order) (w : Z) : Z :=
  match o with
  | LittleEndian => 65536 * ((w / 65536) mod 256) + 16777216 * ((w / 16777216) mod 256)
  | BigEndian => (w mod 256) + 256 * ((w / 256) mod 256)
  end.

(** ** Initialisation and configuration *)

(** [reset_variables], lines 33-47. *)
Definition reset_variables (o : byte_order) (PS : pulse_sensor_t) : pulse_sensor_t :=
  let PS := set_rate (words_of_bytes o (memset (bytes_of_words o (rate PS)) 0 10)) PS in
  let PS := set_start_of_beat false PS in
  let PS := set_BPM 0 PS in
  let PS := set_IBI 750 PS in
  let PS := set_pulse false PS in
  let PS := set_sample_counter 0 PS in
  let PS := set_last_beat_time 0 PS in
  let PS := set_peak F32.c0_6 PS in
  let PS := set_trough F32.c0_6 PS in
  let PS := set_thresh (thresh_setting PS) PS in
  let PS := set_amplitude F32.c0_12 PS in
  let PS := set_first_beat true PS in
  let PS := set_second_beat false PS in
  PS.

(** [heart_rate_init], lines 24-26. *)
Definition heart_rate_init (o : byte_order) (PS : pulse_sensor_t) : pulse_sensor_t :=
  reset_variables o PS.

(** [set_threshold], lines 56-59. *)
Definition set_threshold (PS : pulse_sensor_t) (threshold : F32.t) : pulse_sensor_t :=
  let PS := set_thresh_setting threshold PS in
  let PS := set_thresh threshold PS in
  PS.

(** ** Accessors

    Each accessor receives the handle by (non-const) pointer; the model
    returns the value together with the handle as the call leaves it. *)

Definition get_latest_sample (PS : pulse_sensor_t) : F32.t * pulse_sensor_t :=
  (signal PS, PS).

Definition get_beats_per_minute (PS : pulse_sensor_t) : Z * pulse_sensor_t :=
  (BPM PS, PS).

Definition get_inter_beat_interval (PS : pulse_sensor_t) : Z * pulse_sensor_t :=
  (IBI PS, PS).

Definition saw_start_of_beat (PS : pulse_sensor_t) : bool * pulse_sensor_t :=
  (start_of_beat PS, PS).

Definition is_inside_beat (PS : pulse_sensor_t) : bool * pulse_sensor_t :=
  (pulse PS, PS).

Definition get_pulse_amplitude (PS : pulse_sensor_t) : F32.t * pulse_sensor_t :=
  (amplitude PS, PS).

(** [get_last_beat_time], lines 120-122: the [uint64_t] field is returned
    through the function's [uint32_t] result type. *)
Definition get_last_beat_time (PS : pulse_sensor_t) : Z * pulse_sensor_t :=
  (u32 (last_beat_time PS), PS).

(** ** Processing one sample *)

(** [for (i = lo; i < lo + n; i++) body], on the loop-carried state. *)
Fixpoint for_loop {A : Type} (n : nat) (i : nat) (body : nat -> A -> A) (a : A) : A :=
  match n with
  | O => a
  | S n' => for_loop n' (S i) body (body i a)
  end.

(** How a block of the function ends. *)
Inductive flow : Type :=
| Continue (PS : pulse_sensor_t)   (* control falls through to the next statement *)
| Return (PS : pulse_sensor_t)     (* the function has returned *)
| Undefined.                       (* integer division by zero *)

(** Lines 134-135: advance the sample clock and compute [N]. *)
Definition clock_advance (PS : pulse_sensor_t) (ms : Z) : pulse_sensor_t :=
  let PS := set_sample_counter (u64 (sample_counter PS + ms)) PS in
  let PS := set_N (u64 (sample_counter PS - last_beat_time PS)) PS in
  PS.

(** [(PS->IBI/5)*3], in [uint32_t] arithmetic. *)
Definition dichrotic_window (PS : pulse_sensor_t) : Z :=
  u32 (IBI PS / 5 * 3).

(** Lines 141-148. *)
Definition track_trough (PS : pulse_sensor_t) : pulse_sensor_t :=
  if F32.lt (signal PS) (thresh PS) && (dichrotic_window PS <? N PS) then
    if F32.lt (signal PS) (trough PS) then set_trough (signal PS) PS else PS
  else PS.

(** Lines 150-155. *)
Definition track_peak (PS : pulse_sensor_t) : pulse_sensor_t :=
  if F32.gt (signal PS) (thresh PS) && F32.gt (signal PS) (peak PS) then
    set_peak (signal PS) PS
  else PS.

(** Lines 169-171: every slot of the history receives the new IBI. *)
Definition seed_rate (ibi : Z) (rate : list Z) : list Z :=
  for_loop 10 0 (fun i rate => <[i := ibi]> rate) rate.

(** Lines 181-186: shift the history one slot down, summing the nine
    slots that stay into the [uint32_t] accumulator. *)
Definition shift_rate (rate : list Z) : list Z * Z :=
  for_loop 9 0
    (fun i '(rate, running_total) =>
       let rate := <[i := rate !!! S i]> rate in
       let running_total := u32 (running_total + rate !!! i) in
       (rate, running_total))
    (rate, 0).

(** The condition of line 159. *)
Definition beat_edge (PS : pulse_sensor_t) : bool :=
  F32.gt (signal PS) (thresh PS) && negb (pulse PS) && (dichrotic_window PS <? N PS).

(** Lines 160-172: a beat was found. *)
Definition register_beat (PS : pulse_sensor_t) : pulse_sensor_t :=
  let PS := set_pulse true PS in
  let PS := set_IBI (u32 (u64 (sample_counter PS - last_beat_time PS))) PS in
  let PS := set_last_beat_time (sample_counter PS) PS in
  if second_beat PS then
    let PS := set_second_beat false PS in
    let PS := set_rate (seed_rate (IBI PS) (rate PS)) PS in
    PS
  else PS.

(** Lines 181-190: the history takes the new IBI; the second component
    is [running_total] as line 191 divides by it. *)
Definition running_average (PS : pulse_sensor_t) : pulse_sensor_t * Z :=
  let '(shifted, running_total) := shift_rate (rate PS) in
  let PS := set_rate (<[9%nat := IBI PS]> shifted) PS in
  let running_total := u32 (running_total + IBI PS) in
  let running_total := running_total / 10 in
  (PS, running_total).

(** Lines 158-194. *)
Definition detect_beat (PS : pulse_sensor_t) : flow :=
  if 250 <? N PS then
    if beat_edge PS then
      let PS := register_beat PS in
      if first_beat PS then
        let PS := set_first_beat false PS in
        let PS := set_second_beat true PS in
        Return PS
      else
        let '(PS, running_total) := running_average PS in
        if running_total =? 0 then Undefined
        else
          let PS := set_BPM (u8 (60000 / running_total)) PS in
          let PS := set_start_of_beat true PS in
          Continue PS
    else Continue PS
  else Continue PS.

(** Lines 197-206. *)
Definition end_of_beat (PS : pulse_sensor_t) : pulse_sensor_t :=
  if F32.lt (signal PS) (thresh PS) && pulse PS then
    let PS := set_pulse false PS in
    let PS := set_amplitude (F32.sub (peak PS) (trough PS)) PS in
    let PS := set_thresh (F32.add (F32.div (amplitude PS) (F32.of_int 2)) (trough PS)) PS in
    let PS := set_peak (thresh PS) PS in
    let PS := set_trough (thresh PS) PS in
    PS
  else PS.

(** Lines 209-224. *)
Definition stale_signal_timeout (PS : pulse_sensor_t) : pulse_sensor_t :=
  if 2500 <? N PS then
    let PS := set_thresh (thresh_setting PS) PS in
    let PS := set_peak F32.c0_6 PS in
    let PS := set_trough F32.c0_6 PS in
    let PS := set_last_beat_time (sample_counter PS) PS in
    let PS := set_first_beat true PS in
    let PS := set_second_beat false PS in
    let PS := set_start_of_beat false PS in
    let PS := set_BPM 0 PS in
    let PS := set_IBI 600 PS in
    let PS := set_pulse false PS in
    let PS := set_amplitude F32.c0_12 PS in
    PS
  else PS.

(** [pulse_sensor_process_sample], lines 130-225.  [ms] is a [uint32_t];
    the result is [None] when the call executes a division by zero. *)
Definition pulse_sensor_process_sample (PS : pulse_sensor_t) (ms : Z)
  : option pulse_sensor_t :=
  let PS := clock_advance PS ms in
  let PS := track_trough PS in
  let PS := track_peak PS in
  match detect_beat PS with
  | Undefined => None
  | Return PS => Some PS
  | Continue PS => Some (stale_signal_timeout (end_of_beat PS))
  end.

(** ** Observations of one call *)

(** The handle as the beat detection of lines 158-194 finds it. *)
Definition before_detection (PS : pulse_sensor_t) (ms : Z) : pulse_sensor_t :=
  track_peak (track_trough (clock_advance PS ms)).

(** [N] as the call computes it at line 135. *)
Definition time_since_last_beat (PS : pulse_sensor_t) (ms : Z) : Z :=
  N (clock_advance PS ms).

(** The call takes the beat-edge branch of lines 160-192. *)
Definition detects_edge (PS : pulse_sensor_t) (ms : Z) : bool :=
  let PS := before_detection PS ms in
  (250 <? N PS) && beat_edge PS.

(** The divisor of line 191, when the call gets there. *)
Definition bpm_divisor (PS : pulse_sensor_t) (ms : Z) : option Z :=
  if detects_edge PS ms then
    let PS := register_beat (before_detection PS ms) in
    if first_beat PS then None else Some (snd (running_average PS))
  else None.

Definition sum_rate (H : list Z) : Z := foldr Z.add 0 H.

(** The fields as the timeout block of lines 209-224 leaves them. *)
Definition timed_out (PS : pulse_sensor_t) : Prop :=
  BPM PS = 0 /\ IBI PS = 600 /\ pulse PS = false /\
  peak PS = F32.c0_6 /\ trough PS = F32.c0_6 /\
  start_of_beat PS = false /\ amplitude PS = F32.c0_12 /\
  thresh PS = thresh_setting PS /\
  last_beat_time PS = sample_counter PS /\
  first_beat PS = true /\ second_beat PS = false.

(** ** Sessions

    A session starts with [heart_rate_init] on a handle of arbitrary
    content.  Before each [pulse_sensor_process_sample] the caller stores
    the ADC reading in [PS->signal].  The accessors leave the handle as
    it is and are not recorded; a later [heart_rate_init] is a
    [reset_variables]. *)

Inductive call : Type :=
| store_signal (v : F32.t)
| call_set_threshold (threshold : F32.t)
| call_process_sample (ms : Z)
| call_reset_variables.

Definition valid_call (c : call) : Prop :=
  match c with
  | call_process_sample ms => is_u32 ms
  | _ => True
  end.

Definition exec (o : byte_order) (c : call) (PS : pulse_sensor_t) : option pulse_sensor_t :=
  match c with
  | store_signal v => Some (set_signal v PS)
  | call_set_threshold threshold => Some (set_threshold PS threshold)
  | call_process_sample ms => pulse_sensor_process_sample PS ms
  | call_reset_variables => Some (reset_variables o PS)
  end.

Fixpoint run (o : byte_order) (cs : list call) (PS : pulse_sensor_t) : option pulse_sensor_t :=
  match cs with
  | [] => Some PS
  | c :: cs' =>
      match exec o c PS with
      | Some PS' => run o cs' PS'
      | None => None
      end
  end.

Definition reachable (o : byte_order) (PS : pulse_sensor_t) : Prop :=
  exists (PS0 : pulse_sensor_t) (cs : list call),
    well_typed PS0 /\ Forall valid_call cs /\
    run o cs (heart_rate_init o PS0) = Some PS.

(** No [pulse_sensor_process_sample] call of the session [cs], started on
    [PS], takes the beat-edge branch. *)
Fixpoint no_edge_so_far (o : byte_order) (cs : list call) (PS : pulse_sensor_t) : bool :=
  match cs with
  | [] => true
  | c :: cs' =>
      match c with
      | call_process_sample ms => negb (detects_edge PS ms)
      | _ => true
      end
      && match exec o c PS with
         | Some PS' => no_edge_so_far o cs' PS'
         | None => true
         end
  end.

(** ** The invariant of a session

    Between calls, the history has its ten slots, the last beat is at
    most 2500 ms old, the two warm-up flags are never both set, no beat
    is reported before the warm-up is over, and once it is over every
    slot of the history is an interval between 251 and 2500 ms. *)

Record session_invariant (PS : pulse_sensor_t) : Prop := mk_session_invariant {
  inv_rate_length : length (rate PS) = 10%nat;
  inv_IBI : is_u32 (IBI PS);
  inv_gap : u64 (sample_counter PS - last_beat_time PS) <= 2500;
  inv_phase : first_beat PS = true -> second_beat PS = false;
  inv_warm_up :
    first_beat PS = true \/ second_beat PS = true ->
    start_of_beat PS = false /\ BPM PS = 0;
  inv_steady :
    first_beat PS = false -> second_beat PS = false ->
    Forall (fun r => 250 < r <= 2500) (rate PS)
}.

(** ** Concrete readings and handles *)

Definition volts_1 : F32.t := F32.of_int 1.
Definition volts_0_5 : F32.t := F32.div (F32.of_int 1) (F32.of_int 2).
Definition volts_0_25 : F32.t := F32.div (F32.of_int 1) (F32.of_int 4).

(** A handle left over from an earlier session. *)
Definition stale_handle : pulse_sensor_t :=
  {| signal := volts_0_25;
     BPM := 75;
     IBI := 800;
     pulse := true;
     start_of_beat := true;
     thresh_setting := volts_0_5;
     amplitude := volts_0_5;
     last_beat_time := 90000;
     rate := [800; 801; 802; 803; 804; 805; 806; 807; 808; 809];
     sample_counter := 90020;
     N := 20;
     peak := volts_1;
     trough := volts_0_25;
     thresh := volts_0_5;
     first_beat := false;
     second_beat := false |}.

(** The session [cs] on [stale_handle], started with [heart_rate_init]. *)
Definition session (o : byte_order) (cs : list call) : option pulse_sensor_t :=
  run o cs (heart_rate_init o stale_handle).

(** Sessions on [stale_handle], whose threshold setting is 0.5 V: the
    first beat is awaited; the first beat was seen 20 ms ago; the first
    beat was seen 2000 ms ago; two beats 800 ms apart were seen. *)
Definition first_beat_awaited : list call :=
  [store_signal volts_1].

Definition second_beat_awaited : list call :=
  [store_signal volts_1; call_process_sample 500;
   store_signal volts_0_25; call_process_sample 20;
   store_signal volts_1].

Definition second_beat_late : list call :=
  [store_signal volts_1; call_process_sample 500;
   store_signal volts_0_25; call_process_sample 2000;
   store_signal volts_1].

Definition steady_session : list call :=
  [store_signal volts_1; call_process_sample 500;
   store_signal volts_0_25; call_process_sample 20;
   store_signal volts_1; call_process_sample 780;
   store_signal volts_0_25; call_process_sample 20;
   store_signal volts_1].

(** Two calls, each [UINT32_MAX] ms after the one before, with the
    signal below the threshold. *)
Definition long_uptime : list call :=
  [store_signal volts_0_25; call_process_sample UINT32_MAX;
   call_process_sample UINT32_MAX].

(** ** Session summaries *)

(** The milliseconds a session passes to [pulse_sensor_process_sample]. *)
Fixpoint elapsed (cs : list call) : Z :=
  match cs with
  | [] => 0
  | call_process_sample ms :: cs' => ms + elapsed cs'
  | _ :: cs' => elapsed cs'
  end.

(** The session calls [reset_variables]. *)
Fixpoint has_reset (cs : list call) : bool :=
  match cs with
  | [] => false
  | call_reset_variables :: _ => true
  | _ :: cs' => has_reset cs'
  end.

(** The argument of the last [set_threshold] of a session, or [setting]
    when the session has none. *)
Fixpoint last_threshold (cs : list call) (setting : F32.t) : F32.t :=
  match cs with
  | [] => setting
  | call_set_threshold threshold :: cs' => last_threshold cs' threshold
  | _ :: cs' => last_threshold cs' setting
  end.

(** A call whose [ms] is at most 429494229 (about five days). *)
Definition modest_call (c : call) : Prop :=
  match c with
  | call_process_sample ms => 0 <= ms <= 429494229
  | _ => True
  end.

(** What a handle reports once the warm-up is over: the edge flag is
    set, the IBI is the newest slot of the history, and the BPM is the
    one of the history. *)
Record steady_report (PS : pulse_sensor_t) : Prop := mk_steady_report {
  rep_start_of_beat : start_of_beat PS = true;
  rep_IBI : 250 < IBI PS <= 2500;
  rep_newest : rate PS !! 9%nat = Some (IBI PS);
  rep_BPM : BPM PS = 60000 / (sum_rate (rate PS) / 10)
}.

(** The trough as lines 141-148 leave it. *)
Definition tracked_trough (PS : pulse_sensor_t) (ms : Z) : F32.t :=
  trough (track_trough (clock_advance PS ms)).

(** The number of [pulse_sensor_process_sample] calls of the session
    [cs], started on [PS], that take the beat-edge branch. *)
Fixpoint edges_detected (o : byte_order) (cs : list call) (PS : pulse_sensor_t) : nat :=
  match cs with
  | [] => O
  | c :: cs' =>
      (match c with
       | call_process_sample ms => if detects_edge PS ms then 1 else 0
       | _ => 0
       end
       + match exec o c PS with
         | Some PS' => edges_detected o cs' PS'
         | None => 0
         end)%nat
  end.

(** From [PS] on, two edges have to be detected before a BPM is
    produced: whatever calls follow, as long as fewer than two of them
    detect an edge, [BPM] stays 0 and the edge flag stays clear. *)
Definition awaits_two_edges (PS : pulse_sensor_t) : Prop :=
  forall (o : byte_order) (cs : list call) (PS' : pulse_sensor_t),
    run o cs PS = Some PS' ->
    (edges_detected o cs PS < 2)%nat ->
    BPM PS' = 0 /\ start_of_beat PS' = false /\
    (first_beat PS' = true \/ second_beat PS' = true).

(** * Properties *)

(** Proof steps used throughout. *)

Ltac simpl_fields :=
  cbn [signal BPM IBI pulse start_of_beat thresh_setting amplitude
       last_beat_time rate sample_counter N peak trough thresh first_beat
       second_beat set_signal set_BPM set_IBI set_pulse set_start_of_beat
       set_thresh_setting set_amplitude set_last_beat_time set_rate
       set_sample_counter set_N set_peak set_trough set_thresh
       set_first_beat set_second_beat fst snd andb orb negb] in *.

Ltac split_fields :=
  repeat match goal with |- _ /\ _ => split end.

Ltac by_cases :=
  simpl_fields;
  repeat (case_match; simpl_fields);
  split_fields; try reflexivity; try congruence.

Ltac ten_slots H l :=
  do 10 (destruct l as [|? l]; [discriminate H|]);
  destruct l; [clear H|discriminate H].


(** ** The model on concrete inputs *)

Example c0_6_bits : F32.c0_6 = S754_finite false 10066330 (-24).
Proof. reflexivity. Qed.

Example c0_12_bits : F32.c0_12 = S754_finite false 16106127 (-27).
Proof. reflexivity. Qed.

Example volts_0_5_above_0_25 : F32.gt volts_0_5 volts_0_25 = true.
Proof. reflexivity. Qed.

Example dichrotic_window_after_reset (o : byte_order) :
  dichrotic_window (reset_variables o stale_handle) = 450.
Proof. reflexivity. Qed.

Example shift_rate_example :
  running_average (set_IBI 900 stale_handle)
  = (set_rate [801; 802; 803; 804; 805; 806; 807; 808; 809; 900]
       (set_IBI 900 stale_handle), 814).
Proof. reflexivity. Qed.

(** Two beats 800 ms apart give 75 beats per minute. *)
Example steady_session_bpm :
  option_map (fun PS => (BPM PS, IBI PS, rate PS)) (session LittleEndian steady_session)
  = Some (75, 800, replicate 10 800).
Proof. vm_compute. reflexivity. Qed.

(** ** Machine arithmetic *)

Lemma u32_small (z : Z) : is_u32 z -> u32 z = z.
Proof. unfold is_u32, u32. intros H. apply Z.mod_small. exact H. Qed.

Lemma u64_small (z : Z) : is_u64 z -> u64 z = z.
Proof. unfold is_u64, u64. intros H. apply Z.mod_small. exact H. Qed.

Lemma u8_small (z : Z) : is_u8 z -> u8 z = z.
Proof. unfold is_u8, u8. intros H. apply Z.mod_small. exact H. Qed.

Lemma u32_range (z : Z) : is_u32 (u32 z).
Proof. unfold is_u32, u32. apply Z.mod_pos_bound. lia. Qed.

Lemma u64_range (z : Z) : is_u64 (u64 z).
Proof. unfold is_u64, u64. apply Z.mod_pos_bound. lia. Qed.

Lemma u32_idem (z : Z) : u32 (u32 z) = u32 z.
Proof. apply u32_small, u32_range. Qed.

Lemma u32_add_l (a b : Z) : u32 (u32 a + b) = u32 (a + b).
Proof. unfold u32. apply Zplus_mod_idemp_l. Qed.

Lemma u64_sub_l (a b : Z) : u64 (u64 a - b) = u64 (a - b).
Proof. unfold u64. apply Zminus_mod_idemp_l. Qed.

(** ** The history array as memory *)

Lemma u32_of_bytes_of_u32 (o : byte_order) (w : Z) :
  match bytes_of_u32 o w with
  | [b0; b1; b2; b3] => u32_of_bytes o b0 b1 b2 b3
  | _ => 0
  end = u32 w.
Proof.
  unfold u32. change (2 ^ 32) with 4294967296.
  destruct o; cbn; Z.div_mod_to_equations; lia.
Qed.

Lemma words_of_bytes_of_words (o : byte_order) (ws : list Z) :
  words_of_bytes o (bytes_of_words o ws) = map u32 ws.
Proof.
  induction ws as [|w ws IH]; [reflexivity|].
  pose proof (u32_of_bytes_of_u32 o w) as Hw.
  unfold bytes_of_words in *. destruct o; cbn in *; rewrite IH, Hw; reflexivity.
Qed.

Lemma memset_rate (o : byte_order) (r0 r1 r2 : Z) (rest : list Z) :
  words_of_bytes o (memset (bytes_of_words o (r0 :: r1 :: r2 :: rest)) 0 10)
  = 0 :: 0 :: half_cleared o r2 :: map u32 rest.
Proof.
  rewrite <- (words_of_bytes_of_words o rest).
  unfold bytes_of_words, memset.
  destruct o; cbn; change (0 mod 256) with 0;
    do 3 (apply (f_equal2 cons); [lia|]); reflexivity.
Qed.

Lemma half_cleared_idem (o : byte_order) (w : Z) :
  half_cleared o (half_cleared o w) = half_cleared o w.
Proof. destruct o; cbn; Z.div_mod_to_equations; lia. Qed.

Lemma memset_rate_idem (o : byte_order) (ws : list Z) :
  let cleared := words_of_bytes o (memset (bytes_of_words o ws) 0 10) in
  words_of_bytes o (memset (bytes_of_words o cleared) 0 10) = cleared.
Proof.
  destruct ws as [|r0 [|r1 [|r2 rest]]]; cbn zeta.
  1-3: destruct o; reflexivity.
  rewrite !memset_rate, half_cleared_idem.
  do 3 (apply (f_equal2 cons); [reflexivity|]).
  induction rest as [|w rest IH]; cbn [map]; [reflexivity|].
  rewrite u32_idem. f_equal. exact IH.
Qed.

(** ** Reset *)

(** C10. Idempotent reset: from any handle, [reset_variables] applied
    twice in a row leaves the same handle as applied once. *)
Theorem reset_variables_idempotent (o : byte_order) (PS : pulse_sensor_t) :
  reset_variables o (reset_variables o PS) = reset_variables o PS.
Proof.
  destruct PS as [sig bpm ibi pls sob ts amp lbt rt sc n pk tr th fb sb].
  unfold reset_variables. cbn -[words_of_bytes memset bytes_of_words].
  pose proof (memset_rate_idem o rt) as Hrate. cbn zeta in Hrate.
  rewrite Hrate. reflexivity.
Qed.

(** ** What each block of [pulse_sensor_process_sample] touches *)

Lemma before_detection_fields (PS : pulse_sensor_t) (ms : Z) :
  let PS' := before_detection PS ms in
  sample_counter PS' = u64 (sample_counter PS + ms) /\
  N PS' = u64 (u64 (sample_counter PS + ms) - last_beat_time PS) /\
  signal PS' = signal PS /\ BPM PS' = BPM PS /\ IBI PS' = IBI PS /\
  pulse PS' = pulse PS /\ start_of_beat PS' = start_of_beat PS /\
  thresh_setting PS' = thresh_setting PS /\ amplitude PS' = amplitude PS /\
  last_beat_time PS' = last_beat_time PS /\ rate PS' = rate PS /\
  thresh PS' = thresh PS /\ first_beat PS' = first_beat PS /\
  second_beat PS' = second_beat PS.
Proof.
  destruct PS. cbn zeta.
  unfold before_detection, track_peak, track_trough, clock_advance, dichrotic_window.
  by_cases.
Qed.

Lemma register_beat_fields (PS : pulse_sensor_t) :
  let PS' := register_beat PS in
  pulse PS' = true /\
  IBI PS' = u32 (u64 (sample_counter PS - last_beat_time PS)) /\
  last_beat_time PS' = sample_counter PS /\
  second_beat PS' = false /\
  rate PS' = (if second_beat PS then seed_rate (IBI PS') (rate PS) else rate PS) /\
  signal PS' = signal PS /\ BPM PS' = BPM PS /\
  start_of_beat PS' = start_of_beat PS /\
  thresh_setting PS' = thresh_setting PS /\ amplitude PS' = amplitude PS /\
  sample_counter PS' = sample_counter PS /\ N PS' = N PS /\
  peak PS' = peak PS /\ trough PS' = trough PS /\ thresh PS' = thresh PS /\
  first_beat PS' = first_beat PS.
Proof.
  destruct PS. cbn zeta. unfold register_beat. by_cases.
Qed.

Lemma running_average_fields (PS : pulse_sensor_t) :
  let PS' := fst (running_average PS) in
  rate PS' = <[9%nat := IBI PS]> (fst (shift_rate (rate PS))) /\
  snd (running_average PS) = u32 (snd (shift_rate (rate PS)) + IBI PS) / 10 /\
  signal PS' = signal PS /\ BPM PS' = BPM PS /\ IBI PS' = IBI PS /\
  pulse PS' = pulse PS /\ start_of_beat PS' = start_of_beat PS /\
  thresh_setting PS' = thresh_setting PS /\ amplitude PS' = amplitude PS /\
  last_beat_time PS' = last_beat_time PS /\
  sample_counter PS' = sample_counter PS /\ N PS' = N PS /\
  peak PS' = peak PS /\ trough PS' = trough PS /\ thresh PS' = thresh PS /\
  first_beat PS' = first_beat PS /\ second_beat PS' = second_beat PS.
Proof.
  destruct PS. cbn zeta. unfold running_average. simpl_fields.
  destruct (shift_rate _) as [shifted running_total]. by_cases.
Qed.

Lemma end_of_beat_fields (PS : pulse_sensor_t) :
  let PS' := end_of_beat PS in
  pulse PS' = pulse PS && negb (F32.lt (signal PS) (thresh PS)) /\
  signal PS' = signal PS /\ BPM PS' = BPM PS /\ IBI PS' = IBI PS /\
  start_of_beat PS' = start_of_beat PS /\
  thresh_setting PS' = thresh_setting PS /\
  last_beat_time PS' = last_beat_time PS /\ rate PS' = rate PS /\
  sample_counter PS' = sample_counter PS /\ N PS' = N PS /\
  first_beat PS' = first_beat PS /\ second_beat PS' = second_beat PS.
Proof.
  destruct PS as [sig bpm ibi [] sob ts amp lbt rt sc n pk tr th fb sb];
    cbn zeta; unfold end_of_beat; simpl_fields;
    destruct (F32.lt sig th); by_cases.
Qed.

Lemma stale_signal_timeout_taken (PS : pulse_sensor_t) :
  2500 < N PS ->
  let PS' := stale_signal_timeout PS in
  BPM PS' = 0 /\ IBI PS' = 600 /\ pulse PS' = false /\
  peak PS' = F32.c0_6 /\ trough PS' = F32.c0_6 /\
  start_of_beat PS' = false /\ amplitude PS' = F32.c0_12 /\
  thresh PS' = thresh_setting PS' /\
  last_beat_time PS' = sample_counter PS' /\
  first_beat PS' = true /\ second_beat PS' = false /\
  rate PS' = rate PS /\ sample_counter PS' = sample_counter PS /\
  N PS' = N PS /\ signal PS' = signal PS /\
  thresh_setting PS' = thresh_setting PS.
Proof.
  intros HN. destruct PS. cbn zeta. unfold stale_signal_timeout.
  simpl_fields. apply Z.ltb_lt in HN. rewrite HN. by_cases.
Qed.

Lemma stale_signal_timeout_skipped (PS : pulse_sensor_t) :
  N PS <= 2500 -> stale_signal_timeout PS = PS.
Proof.
  intros HN. unfold stale_signal_timeout.
  apply Z.ltb_ge in HN. rewrite HN. reflexivity.
Qed.

(** The four ways through one call. *)
Lemma pulse_sensor_process_sample_cases (PS : pulse_sensor_t) (ms : Z) :
  let P1 := before_detection PS ms in
  let P2 := register_beat P1 in
  (detects_edge PS ms = false /\
   detect_beat P1 = Continue P1 /\
   pulse_sensor_process_sample PS ms = Some (stale_signal_timeout (end_of_beat P1)))
  \/
  (detects_edge PS ms = true /\ first_beat PS = true /\
   detect_beat P1 = Return (set_second_beat true (set_first_beat false P2)) /\
   pulse_sensor_process_sample PS ms
   = Some (set_second_beat true (set_first_beat false P2)))
  \/
  (detects_edge PS ms = true /\ first_beat PS = false /\
   snd (running_average P2) = 0 /\
   detect_beat P1 = Undefined /\
   pulse_sensor_process_sample PS ms = None)
  \/
  (detects_edge PS ms = true /\ first_beat PS = false /\
   snd (running_average P2) <> 0 /\
   let P3 := set_start_of_beat true
               (set_BPM (u8 (60000 / snd (running_average P2)))
                  (fst (running_average P2))) in
   detect_beat P1 = Continue P3 /\
   pulse_sensor_process_sample PS ms = Some (stale_signal_timeout (end_of_beat P3))).
Proof.
  cbn zeta.
  pose proof (before_detection_fields PS ms) as HP1. cbn zeta in HP1.
  pose proof (register_beat_fields (before_detection PS ms)) as HP2. cbn zeta in HP2.
  unfold pulse_sensor_process_sample, detects_edge.
  fold (before_detection PS ms).
  unfold detect_beat.
  destruct (250 <? N (before_detection PS ms)); cbn [andb];
    [|left; auto].
  destruct (beat_edge (before_detection PS ms)); [|left; auto].
  right.
  replace (first_beat (register_beat (before_detection PS ms)))
    with (first_beat PS) by (symmetry; intuition congruence).
  destruct (first_beat PS); [left; auto|right].
  destruct (running_average _) as [P2' running_total] eqn:Hav.
  cbn [fst snd].
  destruct (running_total =? 0) eqn:Hzero.
  - left. apply Z.eqb_eq in Hzero. auto.
  - right. apply Z.eqb_neq in Hzero. auto.
Qed.

(** ** The two loops over the history *)

Lemma seed_rate_full (ibi : Z) (H : list Z) :
  length H = 10%nat -> seed_rate ibi H = replicate 10 ibi.
Proof. intros Hlen. ten_slots Hlen H. reflexivity. Qed.

Lemma shift_rate_shifts (H : list Z) :
  length H = 10%nat ->
  forall ibi : Z,
    <[9%nat := ibi]> (fst (shift_rate H)) = drop 1 H ++ [ibi] /\
    u32 (snd (shift_rate H) + ibi) = u32 (sum_rate (drop 1 H ++ [ibi])).
Proof.
  intros Hlen ibi. ten_slots Hlen H. split; [reflexivity|].
  cbn -[u32 Z.add].
  repeat (rewrite u32_add_l || rewrite <- Z.add_assoc).
  apply (f_equal u32). lia.
Qed.

Lemma running_average_shifts (PS : pulse_sensor_t) :
  length (rate PS) = 10%nat ->
  let H := drop 1 (rate PS) ++ [IBI PS] in
  rate (fst (running_average PS)) = H /\
  snd (running_average PS) = u32 (sum_rate H) / 10.
Proof.
  intros Hlen. cbn zeta.
  destruct (running_average_fields PS) as (Hrate & Htotal & _).
  destruct (shift_rate_shifts (rate PS) Hlen (IBI PS)) as (Hshift & Hsum).
  rewrite Hrate, Htotal, Hshift, Hsum. split; reflexivity.
Qed.

Lemma sum_rate_replicate (n : nat) (x : Z) :
  sum_rate (replicate n x) = Z.of_nat n * x.
Proof.
  induction n as [|n IH]; [reflexivity|].
  cbn [replicate sum_rate foldr]. fold (sum_rate (replicate n x)).
  rewrite IH. lia.
Qed.

Lemma sum_rate_app (H1 H2 : list Z) :
  sum_rate (H1 ++ H2) = sum_rate H1 + sum_rate H2.
Proof.
  induction H1 as [|x H1 IH]; [reflexivity|].
  cbn [app sum_rate foldr]. fold (sum_rate (H1 ++ H2)). fold (sum_rate H1).
  rewrite IH. lia.
Qed.

Lemma sum_rate_bounds (lo hi : Z) (H : list Z) :
  Forall (fun r => lo <= r <= hi) H ->
  Z.of_nat (length H) * lo <= sum_rate H <= Z.of_nat (length H) * hi.
Proof.
  induction 1 as [|x H Hx _ IH]; [cbn; lia|].
  cbn [sum_rate foldr length]. fold (sum_rate H).
  rewrite Nat2Z.inj_succ, !Z.mul_succ_l. lia.
Qed.

(** ** The sample clock *)

Lemma N_before_detection (PS : pulse_sensor_t) (ms : Z) :
  N (before_detection PS ms) = time_since_last_beat PS ms.
Proof.
  destruct (before_detection_fields PS ms) as (_ & HN & _).
  rewrite HN. destruct PS. reflexivity.
Qed.

Lemma time_since_last_beat_gap (PS : pulse_sensor_t) (ms : Z) :
  time_since_last_beat PS ms
  = u64 (u64 (sample_counter PS - last_beat_time PS) + ms).
Proof.
  destruct PS as [sig bpm ibi pls sob ts amp lbt rt sc n pk tr th fb sb].
  unfold time_since_last_beat, clock_advance. simpl_fields.
  rewrite u64_sub_l. unfold u64. rewrite Zplus_mod_idemp_l.
  f_equal. lia.
Qed.

Lemma u64_sub_diag (z : Z) : u64 (z - z) = 0.
Proof. rewrite Z.sub_diag. reflexivity. Qed.

(** A detected edge means the noise floors were passed. *)
Lemma detects_edge_true (PS : pulse_sensor_t) (ms : Z) :
  detects_edge PS ms = true ->
  250 < time_since_last_beat PS ms /\
  dichrotic_window PS < time_since_last_beat PS ms /\
  F32.gt (signal PS) (thresh PS) = true /\
  pulse PS = false.
Proof.
  unfold detects_edge, beat_edge. cbn zeta.
  destruct (before_detection_fields PS ms)
    as (_ & _ & Hsig & _ & Hibi & Hpulse & _ & _ & _ & _ & _ & Hthresh & _).
  unfold dichrotic_window. rewrite N_before_detection, Hsig, Hibi, Hpulse, Hthresh.
  intros H.
  apply andb_prop in H as [H250 H]. apply andb_prop in H as [H Hwindow].
  apply andb_prop in H as [Hgt Hidle].
  apply Z.ltb_lt in H250, Hwindow. apply negb_true_iff in Hidle.
  repeat split; assumption.
Qed.

(** ** The invariant of a session *)

Section Sessions.

Variable o : byte_order.

Lemma reset_variables_rate_length (PS : pulse_sensor_t) :
  length (rate PS) = 10%nat -> length (rate (reset_variables o PS)) = 10%nat.
Proof.
  destruct PS as [sig bpm ibi pls sob ts amp lbt rt sc n pk tr th fb sb].
  unfold reset_variables. simpl_fields. intros Hlen.
  destruct rt as [|r0 [|r1 [|r2 rest]]]; try discriminate Hlen.
  rewrite memset_rate. cbn [length] in *. rewrite length_map. exact Hlen.
Qed.

Lemma reset_variables_invariant (PS : pulse_sensor_t) :
  length (rate PS) = 10%nat -> session_invariant (reset_variables o PS).
Proof.
  intros Hlen. constructor.
  - apply reset_variables_rate_length, Hlen.
  - destruct PS; cbn. unfold is_u32. lia.
  - destruct PS; unfold reset_variables; simpl_fields.
    rewrite u64_sub_diag. lia.
  - destruct PS; reflexivity.
  - destruct PS; split; reflexivity.
  - destruct PS; discriminate.
Qed.

Lemma pulse_sensor_process_sample_invariant (PS PS' : pulse_sensor_t) (ms : Z) :
  session_invariant PS ->
  pulse_sensor_process_sample PS ms = Some PS' ->
  session_invariant PS'.
Proof.
  intros [Hlen Hu32 Hgap Hphase Hwarm Hsteady] Hcall.
  pose proof (before_detection_fields PS ms) as HP1. cbn zeta in HP1.
  pose proof (N_before_detection PS ms) as HN1.
  set (P1 := before_detection PS ms) in *.
  destruct HP1 as (Hsc1 & HN1' & _ & Hbpm1 & Hibi1 & _ & Hsob1 & _ & _ & Hlbt1
                   & Hrate1 & _ & Hfb1 & Hsb1).
  assert (Hgap1 : u64 (sample_counter P1 - last_beat_time P1) = N P1)
    by (rewrite HN1', Hsc1, Hlbt1; reflexivity).
  assert (Hquiet : forall Q : pulse_sensor_t,
    N Q = N P1 -> sample_counter Q = sample_counter P1 ->
    rate Q = rate P1 -> last_beat_time Q = last_beat_time P1 ->
    first_beat Q = first_beat P1 -> second_beat Q = second_beat P1 ->
    start_of_beat Q = start_of_beat P1 -> BPM Q = BPM P1 ->
    IBI Q = IBI P1 ->
    N P1 <= 2500 -> session_invariant Q).
  { intros Q HNQ Hsc Hrate Hlbt Hfb Hsb Hsob Hbpm Hibi Hle. constructor.
    - congruence.
    - congruence.
    - rewrite Hsc, Hlbt, Hgap1. exact Hle.
    - rewrite Hfb, Hsb, Hfb1, Hsb1. exact Hphase.
    - rewrite Hfb, Hsb, Hsob, Hbpm, Hfb1, Hsb1, Hsob1, Hbpm1. exact Hwarm.
    - rewrite Hfb, Hsb, Hrate, Hfb1, Hsb1, Hrate1. exact Hsteady. }
  assert (Hlost : forall Q : pulse_sensor_t,
    length (rate Q) = 10%nat -> 2500 < N Q ->
    session_invariant (stale_signal_timeout Q)).
  { intros Q HlenQ HNQ.
    destruct (stale_signal_timeout_taken Q HNQ)
      as (Hbpm & Hibi & _ & _ & _ & Hsob & _ & _ & Hlbt & Hfb & Hsb & Hrate & _).
    constructor.
    - congruence.
    - rewrite Hibi. unfold is_u32. lia.
    - rewrite Hlbt, u64_sub_diag. lia.
    - intros _. exact Hsb.
    - intros _. split; assumption.
    - rewrite Hfb. discriminate. }
  pose proof (pulse_sensor_process_sample_cases PS ms) as Hcases.
  cbn zeta in Hcases. fold P1 in Hcases.
  destruct Hcases
    as [(Hedge & _ & Heq)|[(Hedge & Hfb & _ & Heq)|[(_ & _ & _ & _ & Heq)
       |(Hedge & Hfb & Hnz & _ & Heq)]]];
    rewrite Heq in Hcall; [| |discriminate|];
    apply (inj Some) in Hcall; subst PS'; clear Heq.
  - (* no edge in this call *)
    destruct (end_of_beat_fields P1)
      as (_ & _ & Hbpm & Hibi & Hsob & _ & Hlbt & Hrate & Hsc & HN & Hfb & Hsb).
    destruct (Z_lt_le_dec 2500 (N (end_of_beat P1))) as [Hgt|Hle].
    + apply Hlost; [congruence|exact Hgt].
    + rewrite stale_signal_timeout_skipped by exact Hle.
      apply Hquiet; try assumption. congruence.
  - (* first edge: early return *)
    destruct (register_beat_fields P1)
      as (_ & Hibi & Hlbt & _ & Hrate & _ & Hbpm & Hsob & _ & _ & Hsc & _).
    rewrite Hsb1, (Hphase Hfb) in Hrate.
    destruct (Hwarm (or_introl Hfb)) as [Hsob0 Hbpm0].
    destruct (register_beat P1) as [sig bpm ibi pls sob ts amp lbt rt sc n pk tr th fb sb].
    simpl_fields. constructor; simpl_fields.
    + congruence.
    + rewrite Hibi. apply u32_range.
    + rewrite Hlbt, <- Hsc, u64_sub_diag. lia.
    + discriminate.
    + intros _. split; congruence.
    + discriminate.
  - (* edge with the history updated *)
    cbn zeta in *.
    apply detects_edge_true in Hedge. destruct Hedge as (H250 & _).
    rewrite <- HN1 in H250.
    destruct (register_beat_fields P1)
      as (_ & Hibi & Hlbt & Hsb2 & Hrate2 & _ & _ & _ & _ & _ & Hsc2 & HN2 & _ & _ & _ & Hfb2).
    set (P2 := register_beat P1) in *.
    assert (Hlen2 : length (rate P2) = 10%nat).
    { rewrite Hrate2. destruct (second_beat P1).
      - rewrite seed_rate_full by congruence. reflexivity.
      - congruence. }
    destruct (running_average_shifts P2 Hlen2) as (Hrate3 & _).
    destruct (running_average_fields P2)
      as (_ & _ & _ & _ & Hibi3 & _ & _ & _ & _ & Hlbt3 & Hsc3 & HN3 & _ & _ & _ & Hfb3 & Hsb3).
    set (total := snd (running_average P2)) in *.
    set (P2' := fst (running_average P2)) in *.
    set (P3 := set_start_of_beat true (set_BPM (u8 (60000 / total)) P2')).
    assert (HP3 : rate P3 = rate P2' /\ N P3 = N P2' /\ IBI P3 = IBI P2' /\
                  sample_counter P3 = sample_counter P2' /\
                  last_beat_time P3 = last_beat_time P2' /\
                  first_beat P3 = first_beat P2' /\
                  second_beat P3 = second_beat P2')
      by (unfold P3; destruct P2'; simpl_fields; repeat split).
    destruct HP3 as (Hrate4 & HN4 & Hibi4 & Hsc4 & Hlbt4 & Hfb4 & Hsb4).
    destruct (end_of_beat_fields P3)
      as (_ & _ & _ & Hibi5 & _ & _ & Hlbt5 & Hrate5 & Hsc5 & HN5 & Hfb5 & Hsb5).
    assert (Hlen5 : length (rate (end_of_beat P3)) = 10%nat).
    { rewrite Hrate5, Hrate4, Hrate3, length_app, length_drop, Hlen2. reflexivity. }
    destruct (Z_lt_le_dec 2500 (N (end_of_beat P3))) as [Hgt|Hle].
    + apply Hlost; assumption.
    + rewrite stale_signal_timeout_skipped by exact Hle.
      assert (HNle : N P1 <= 2500) by congruence.
      assert (Hibi_eq : IBI P2 = N P1).
      { rewrite Hibi, Hgap1. apply u32_small. unfold is_u32. lia. }
      constructor.
      * exact Hlen5.
      * rewrite Hibi5, Hibi4, Hibi3, Hibi. apply u32_range.
      * rewrite Hlbt5, Hsc5, Hlbt4, Hsc4, Hlbt3, Hsc3, Hlbt, Hsc2, u64_sub_diag. lia.
      * rewrite Hfb5, Hfb4, Hfb3, Hfb2, Hfb1, Hfb. discriminate.
      * rewrite Hfb5, Hfb4, Hfb3, Hfb2, Hfb1, Hfb, Hsb5, Hsb4, Hsb3, Hsb2.
        intros [?|?]; discriminate.
      * intros _ _. rewrite Hrate5, Hrate4, Hrate3.
        apply Forall_app. split.
        -- apply Forall_drop. rewrite Hrate2.
           destruct (second_beat P1) eqn:Hsecond.
           ++ rewrite seed_rate_full by congruence.
              apply Forall_replicate. lia.
           ++ rewrite Hrate1. apply Hsteady; congruence.
        -- constructor; [lia|constructor].
Qed.

Lemma set_signal_invariant (PS : pulse_sensor_t) (v : F32.t) :
  session_invariant PS -> session_invariant (set_signal v PS).
Proof. destruct PS. intros [? ? ? ? ? ?]. constructor; assumption. Qed.

Lemma set_threshold_invariant (PS : pulse_sensor_t) (threshold : F32.t) :
  session_invariant PS -> session_invariant (set_threshold PS threshold).
Proof. destruct PS. intros [? ? ? ? ? ?]. constructor; assumption. Qed.

Lemma exec_invariant (c : call) (PS PS' : pulse_sensor_t) :
  session_invariant PS -> exec o c PS = Some PS' -> session_invariant PS'.
Proof.
  intros Hinv Hexec. destruct c as [v|threshold|ms|]; cbn [exec] in Hexec.
  - injection Hexec as <-. apply set_signal_invariant, Hinv.
  - injection Hexec as <-. apply set_threshold_invariant, Hinv.
  - eapply pulse_sensor_process_sample_invariant; eassumption.
  - injection Hexec as <-. apply reset_variables_invariant, Hinv.
Qed.

Lemma run_invariant (cs : list call) :
  forall PS PS' : pulse_sensor_t,
    session_invariant PS -> run o cs PS = Some PS' -> session_invariant PS'.
Proof.
  induction cs as [|c cs IH]; intros PS PS' Hinv Hrun; cbn [run] in Hrun.
  - injection Hrun as <-. exact Hinv.
  - destruct (exec o c PS) as [PS1|] eqn:Hexec; [|discriminate].
    eapply IH; [|exact Hrun]. eapply exec_invariant; eassumption.
Qed.

Lemma reachable_invariant (PS : pulse_sensor_t) :
  reachable o PS -> session_invariant PS.
Proof.
  intros (PS0 & cs & Hwt & _ & Hrun).
  eapply run_invariant; [|exact Hrun].
  apply reset_variables_invariant, Hwt.
Qed.

Lemma stale_handle_well_typed : well_typed stale_handle.
Proof.
  constructor; cbn; unfold is_u8, is_u32, is_u64; try lia; try reflexivity.
  repeat constructor; lia.
Qed.

Lemma session_reachable (cs : list call) (PS : pulse_sensor_t) :
  Forall valid_call cs -> session o cs = Some PS -> reachable o PS.
Proof.
  intros Hvalid Hrun. exists stale_handle, cs.
  split; [apply stale_handle_well_typed|]. split; assumption.
Qed.

Lemma reachable_step (c : call) (PS PS' : pulse_sensor_t) :
  reachable o PS -> valid_call c -> exec o c PS = Some PS' -> reachable o PS'.
Proof.
  intros (PS0 & cs & Hwt & Hvalid & Hrun) Hc Hexec.
  exists PS0, (cs ++ [c]). split; [exact Hwt|]. split.
  - apply Forall_app. split; [exact Hvalid|]. constructor; [exact Hc|constructor].
  - clear Hvalid. revert Hrun. generalize (heart_rate_init o PS0).
    induction cs as [|c' cs IH]; intros Q Hrun; cbn [run app] in *.
    + injection Hrun as ->. rewrite Hexec. reflexivity.
    + destruct (exec o c' Q); [|discriminate]. apply IH, Hrun.
Qed.

End Sessions.

Ltac session_reachable_tac :=
  match goal with
  | Hrun : session ?o ?cs = Some ?PS |- reachable ?o ?PS =>
      refine (session_reachable o cs PS _ Hrun);
      repeat constructor; unfold is_u32, UINT32_MAX; lia
  end.

(** ** Reset and initialisation *)

Lemma heart_rate_init_eq (o : byte_order) (PS : pulse_sensor_t) :
  heart_rate_init o PS = reset_variables o PS.
Proof. reflexivity. Qed.

(** Every scalar field takes its default. *)
Lemma reset_variables_defaults (o : byte_order) (PS : pulse_sensor_t) :
  let PS' := reset_variables o PS in
  BPM PS' = 0 /\ IBI PS' = 750 /\ pulse PS' = false /\
  sample_counter PS' = 0 /\ last_beat_time PS' = 0 /\
  peak PS' = F32.c0_6 /\ trough PS' = F32.c0_6 /\
  thresh PS' = thresh_setting PS /\ thresh_setting PS' = thresh_setting PS /\
  amplitude PS' = F32.c0_12 /\ first_beat PS' = true /\
  second_beat PS' = false /\ start_of_beat PS' = false.
Proof. destruct PS. cbn zeta. unfold reset_variables. by_cases. Qed.

(** The history: [memset] is given the count 10, which it takes as a
    number of bytes, so it clears two slots and a half of the ten. *)
Lemma reset_variables_history (o : byte_order) (PS : pulse_sensor_t) :
  well_typed PS ->
  rate (reset_variables o PS)
  = 0 :: 0 :: half_cleared o (rate PS !!! 2%nat) :: drop 3 (rate PS).
Proof.
  intros [_ _ _ Hlen Hrange _ _].
  destruct PS as [sig bpm ibi pls sob ts amp lbt rt sc n pk tr th fb sb].
  unfold reset_variables. simpl_fields.
  destruct rt as [|r0 [|r1 [|r2 rest]]]; try discriminate Hlen.
  rewrite memset_rate. cbn [drop lookup_total list_lookup_total].
  do 3 (apply (f_equal2 cons); [reflexivity|]).
  do 3 (apply Forall_cons in Hrange as [_ Hrange]).
  clear Hlen. cbn [drop].
  induction Hrange as [|w rest Hw _ IH]; [reflexivity|].
  cbn [map]. rewrite (u32_small w Hw), IH. reflexivity.
Qed.

(** C1. After [heart_rate_init] or [reset_variables] the scalar fields hold
    the documented defaults, but the history is not cleared: on a handle
    whose ten slots hold 800 to 809, slots 3 to 9 still hold 803 to 809
    afterwards, in either byte order, where the documented default is
    ten zeros. *)
Theorem reset_variables_keeps_history_slots (o : byte_order) :
  well_typed stale_handle /\
  rate stale_handle = [800; 801; 802; 803; 804; 805; 806; 807; 808; 809] /\
  rate (reset_variables o stale_handle)
  = [0; 0; half_cleared o 802; 803; 804; 805; 806; 807; 808; 809] /\
  rate (heart_rate_init o stale_handle)
  = [0; 0; half_cleared o 802; 803; 804; 805; 806; 807; 808; 809] /\
  rate (reset_variables o stale_handle) !! 3%nat = Some 803.
Proof.
  pose proof stale_handle_well_typed as Hwt.
  pose proof (reset_variables_history o stale_handle Hwt) as Hrate.
  split; [exact Hwt|]. split; [reflexivity|].
  unfold heart_rate_init. rewrite Hrate. repeat split; reflexivity.
Qed.

(** ** Handles stay well typed *)

Lemma half_cleared_range (o : byte_order) (w : Z) : is_u32 (half_cleared o w).
Proof.
  unfold is_u32. change (2 ^ 32) with 4294967296.
  destruct o; cbn; Z.div_mod_to_equations; lia.
Qed.

Lemma reset_variables_well_typed (o : byte_order) (PS : pulse_sensor_t) :
  well_typed PS -> well_typed (reset_variables o PS).
Proof.
  intros Hwt.
  pose proof (reset_variables_rate_length o PS (wt_rate_length PS Hwt)) as Hlen.
  pose proof (reset_variables_history o PS Hwt) as Hrate.
  destruct (reset_variables_defaults o PS)
    as (Hbpm & Hibi & _ & Hsc & Hlbt & _).
  assert (HN : N (reset_variables o PS) = N PS) by (destruct PS; reflexivity).
  destruct Hwt as [_ _ _ _ Hrange _ HwN].
  constructor; rewrite ?Hbpm, ?Hibi, ?Hsc, ?Hlbt, ?HN;
    unfold is_u8, is_u32, is_u64; try lia; try assumption.
  rewrite Hrate.
  apply Forall_cons; split; [unfold is_u32; lia|].
  apply Forall_cons; split; [unfold is_u32; lia|].
  apply Forall_cons; split; [apply half_cleared_range|].
  apply Forall_drop, Hrange.
Qed.

Lemma pulse_sensor_process_sample_well_typed (PS PS' : pulse_sensor_t) (ms : Z) :
  well_typed PS ->
  pulse_sensor_process_sample PS ms = Some PS' ->
  well_typed PS'.
Proof.
  intros [Hbpm Hibi Hlbt0 Hlen Hrange _ _] Hcall.
  destruct (before_detection_fields PS ms)
    as (Hsc1 & HN1 & _ & Hbpm1 & Hibi1 & _ & _ & _ & _ & Hlbt1 & Hrate1 & _).
  set (P1 := before_detection PS ms) in *.
  (* the fields a block may leave behind *)
  assert (Hclose : forall Q : pulse_sensor_t,
    is_u8 (BPM Q) -> is_u32 (IBI Q) ->
    last_beat_time Q = last_beat_time PS \/ last_beat_time Q = sample_counter Q ->
    length (rate Q) = 10%nat -> Forall is_u32 (rate Q) ->
    sample_counter Q = sample_counter P1 -> N Q = N P1 ->
    well_typed (stale_signal_timeout (end_of_beat Q))).
  { intros Q HQbpm HQibi HQlbt HQlen HQrange HQsc HQN.
    destruct (end_of_beat_fields Q)
      as (_ & _ & Hbpm' & Hibi' & _ & _ & Hlbt' & Hrate' & Hsc' & HN' & _).
    assert (Hsc_range : is_u64 (sample_counter Q))
      by (rewrite HQsc, Hsc1; apply u64_range).
    assert (HN_range : is_u64 (N Q)) by (rewrite HQN, HN1; apply u64_range).
    destruct (Z_lt_le_dec 2500 (N (end_of_beat Q))) as [Hgt|Hle].
    - destruct (stale_signal_timeout_taken _ Hgt)
        as (Hb & Hi & _ & _ & _ & _ & _ & _ & Hl & _ & _ & Hr & Hs & Hn & _).
      cbn zeta in *. constructor; rewrite ?Hb, ?Hi, ?Hl, ?Hr, ?Hs, ?Hn;
        unfold is_u8, is_u32 in *; try lia; congruence.
    - rewrite stale_signal_timeout_skipped by exact Hle.
      constructor; try congruence.
      rewrite Hlbt'. destruct HQlbt as [->| ->]; assumption. }
  assert (Hbeat : let P2 := register_beat P1 in
    BPM P2 = BPM PS /\ is_u32 (IBI P2) /\
    last_beat_time P2 = sample_counter P2 /\
    length (rate P2) = 10%nat /\ Forall is_u32 (rate P2) /\
    sample_counter P2 = sample_counter P1 /\ N P2 = N P1).
  { cbn zeta.
    destruct (register_beat_fields P1)
      as (_ & Hibi2 & Hlbt2 & _ & Hrate2 & _ & Hbpm2 & _ & _ & _ & Hsc2 & HN2 & _).
    assert (Hu32 : is_u32 (IBI (register_beat P1)))
      by (rewrite Hibi2; apply u32_range).
    repeat split; try congruence; try apply Hu32; rewrite Hrate2.
    - destruct (second_beat P1); [|congruence].
      rewrite seed_rate_full by congruence. reflexivity.
    - destruct (second_beat P1); [|congruence].
      rewrite seed_rate_full by congruence. apply Forall_replicate, Hu32. }
  cbn zeta in Hbeat.
  destruct Hbeat as (Hbpm2 & Hibi2 & Hlbt2 & Hlen2 & Hrange2 & Hsc2 & HN2).
  pose proof (pulse_sensor_process_sample_cases PS ms) as Hcases.
  cbn zeta in Hcases. fold P1 in Hcases.
  set (P2 := register_beat P1) in *.
  destruct Hcases
    as [(_ & _ & Heq)|[(_ & _ & _ & Heq)|[(_ & _ & _ & _ & Heq)
       |(_ & _ & _ & _ & Heq)]]];
    rewrite Heq in Hcall; [| |discriminate|];
    apply (inj Some) in Hcall; subst PS'; clear Heq.
  - apply Hclose; try congruence. left. exact Hlbt1.
  - assert (Hsc_range : is_u64 (sample_counter P2))
      by (rewrite Hsc2, Hsc1; apply u64_range).
    assert (HN_range : is_u64 (N P2)) by (rewrite HN2, HN1; apply u64_range).
    destruct P2. simpl_fields. constructor; simpl_fields; congruence.
  - destruct (running_average_shifts P2 Hlen2) as (Hrate3 & _).
    destruct (running_average_fields P2)
      as (_ & _ & _ & _ & Hibi3 & _ & _ & _ & _ & Hlbt3 & Hsc3 & HN3 & _).
    set (total := snd (running_average P2)) in *.
    assert (Hrange3 : Forall is_u32 (rate (fst (running_average P2)))).
    { rewrite Hrate3. apply Forall_app. split.
      - apply Forall_drop, Hrange2.
      - constructor; [exact Hibi2|constructor]. }
    assert (Hlen3 : length (rate (fst (running_average P2))) = 10%nat).
    { rewrite Hrate3, length_app, length_drop, Hlen2. reflexivity. }
    assert (Hbpm3 : is_u8 (u8 (60000 / total)))
      by (unfold is_u8, u8; apply Z.mod_pos_bound; lia).
    destruct (fst (running_average P2)). simpl_fields.
    apply Hclose; simpl_fields; try congruence. right. congruence.
Qed.

Lemma exec_well_typed (o : byte_order) (c : call) (PS PS' : pulse_sensor_t) :
  well_typed PS -> exec o c PS = Some PS' -> well_typed PS'.
Proof.
  intros Hwt Hexec. destruct c as [v|threshold|ms|]; cbn [exec] in Hexec.
  - injection Hexec as <-. destruct PS, Hwt. constructor; assumption.
  - injection Hexec as <-. destruct PS, Hwt. constructor; assumption.
  - eapply pulse_sensor_process_sample_well_typed; eassumption.
  - injection Hexec as <-. apply reset_variables_well_typed, Hwt.
Qed.

Lemma reachable_well_typed (o : byte_order) (PS : pulse_sensor_t) :
  reachable o PS -> well_typed PS.
Proof.
  intros (PS0 & cs & Hwt & _ & Hrun).
  apply (reset_variables_well_typed o) in Hwt.
  change (reset_variables o PS0) with (heart_rate_init o PS0) in Hwt.
  revert Hwt Hrun. generalize (heart_rate_init o PS0).
  induction cs as [|c cs IH]; intros Q Hwt Hrun; cbn [run] in Hrun.
  - injection Hrun as <-. exact Hwt.
  - destruct (exec o c Q) as [Q'|] eqn:Hexec; [|discriminate].
    apply (IH Q'); [|exact Hrun]. eapply exec_well_typed; eassumption.
Qed.

(** ** Accessors *)

Lemma get_last_beat_time_u32 (PS : pulse_sensor_t) :
  is_u32 (last_beat_time PS) ->
  get_last_beat_time PS = (last_beat_time PS, PS).
Proof. intros H. unfold get_last_beat_time. rewrite (u32_small _ H). reflexivity. Qed.

(** C8. [get_last_beat_time] does not return the stored field for every
    value the field can hold: the field is a [uint64_t] and the result a
    [uint32_t].  In the session [long_uptime] the field reaches
    8589934590 and the accessor returns 4294967294. *)
Theorem get_last_beat_time_truncates :
  exists PS : pulse_sensor_t,
    session LittleEndian long_uptime = Some PS /\
    reachable LittleEndian PS /\
    last_beat_time PS = 8589934590 /\
    is_u64 (last_beat_time PS) /\
    fst (get_last_beat_time PS) = 4294967294 /\
    snd (get_last_beat_time PS) = PS.
Proof.
  destruct (session LittleEndian long_uptime) as [PS|] eqn:Hrun;
    [|vm_compute in Hrun; discriminate].
  exists PS. split; [reflexivity|]. split.
  - apply (session_reachable LittleEndian long_uptime); [|exact Hrun].
    repeat constructor; unfold is_u32, UINT32_MAX; lia.
  - vm_compute in Hrun. injection Hrun as <-.
    unfold is_u64. cbn. repeat split; try reflexivity; lia.
Qed.

(** C9. [saw_start_of_beat] returns the flag and leaves the handle as it
    was; it does not clear the flag.  No other accessor changes the
    handle, [set_threshold] keeps the flag, and a
    [pulse_sensor_process_sample] call that finds the flag set and leaves
    it clear has run its timeout block ([N > 2500]). *)
Theorem saw_start_of_beat_reads_flag (PS : pulse_sensor_t) :
  saw_start_of_beat PS = (start_of_beat PS, PS) /\
  start_of_beat (snd (saw_start_of_beat PS)) = start_of_beat PS /\
  (snd (get_latest_sample PS) = PS /\ snd (get_beats_per_minute PS) = PS /\
   snd (get_inter_beat_interval PS) = PS /\ snd (is_inside_beat PS) = PS /\
   snd (get_pulse_amplitude PS) = PS /\ snd (get_last_beat_time PS) = PS) /\
  (forall threshold : F32.t,
     start_of_beat (set_threshold PS threshold) = start_of_beat PS) /\
  (forall v : F32.t, start_of_beat (set_signal v PS) = start_of_beat PS) /\
  (forall (ms : Z) (PS' : pulse_sensor_t),
     start_of_beat PS = true ->
     pulse_sensor_process_sample PS ms = Some PS' ->
     start_of_beat PS' = false ->
     2500 < time_since_last_beat PS ms).
Proof.
  split; [reflexivity|]. split; [reflexivity|].
  split; [repeat split|]. split; [destruct PS; reflexivity|].
  split; [destruct PS; reflexivity|].
  intros ms PS' Hset Hcall Hclear.
  rewrite <- N_before_detection.
  pose proof (before_detection_fields PS ms) as HP1. cbn zeta in HP1.
  destruct HP1 as (_ & _ & _ & _ & _ & _ & Hsob1 & _).
  pose proof (pulse_sensor_process_sample_cases PS ms) as Hcases.
  cbn zeta in Hcases.
  set (P1 := before_detection PS ms) in *.
  destruct Hcases
    as [(_ & _ & Heq)|[(_ & _ & _ & Heq)|[(_ & _ & _ & _ & Heq)
       |(_ & _ & _ & _ & Heq)]]];
    rewrite Heq in Hcall; [| |discriminate|];
    apply (inj Some) in Hcall; subst PS'; clear Heq.
  - destruct (end_of_beat_fields P1)
      as (_ & _ & _ & _ & Hsob & _ & _ & _ & _ & HN & _).
    destruct (Z_lt_le_dec 2500 (N (end_of_beat P1))) as [Hgt|Hle]; [lia|].
    rewrite stale_signal_timeout_skipped in Hclear by exact Hle. congruence.
  - destruct (register_beat_fields P1)
      as (_ & _ & _ & _ & _ & _ & _ & Hsob & _).
    destruct (register_beat P1). simpl_fields. congruence.
  - set (P3 := set_start_of_beat true _) in *.
    assert (HP3 : start_of_beat P3 = true /\
                  N P3 = N (fst (running_average (register_beat P1))))
      by (unfold P3; destruct (fst (running_average _)); split; reflexivity).
    destruct HP3 as (Hsob3 & HN3).
    destruct (running_average_fields (register_beat P1))
      as (_ & _ & _ & _ & _ & _ & _ & _ & _ & _ & _ & HN2' & _).
    destruct (register_beat_fields P1)
      as (_ & _ & _ & _ & _ & _ & _ & _ & _ & _ & _ & HN2 & _).
    destruct (end_of_beat_fields P3)
      as (_ & _ & _ & _ & Hsob & _ & _ & _ & _ & HN & _).
    destruct (Z_lt_le_dec 2500 (N (end_of_beat P3))) as [Hgt|Hle];
      [cbn zeta in *; lia|].
    rewrite stale_signal_timeout_skipped in Hclear by exact Hle. congruence.
Qed.

Lemma saw_start_of_beat_reads_flag_witness :
  saw_start_of_beat stale_handle = (true, stale_handle) /\
  2500 < time_since_last_beat stale_handle 3000.
Proof.
  destruct (saw_start_of_beat_reads_flag stale_handle)
    as (Hread & _ & _ & _ & _ & Hclear).
  split; [exact Hread|].
  destruct (pulse_sensor_process_sample stale_handle 3000) as [PS'|] eqn:Hcall;
    [|vm_compute in Hcall; discriminate].
  apply (Hclear 3000 PS'); [reflexivity|exact Hcall|].
  vm_compute in Hcall. injection Hcall as <-. reflexivity.
Defined.

(** ** Calls without a beat edge *)

Lemma dichrotic_window_eq (PS : pulse_sensor_t) :
  is_u32 (IBI PS) -> dichrotic_window PS = IBI PS / 5 * 3.
Proof.
  unfold dichrotic_window, is_u32. intros H. apply u32_small. unfold is_u32.
  change (2 ^ 32) with 4294967296 in *. Z.div_mod_to_equations. lia.
Qed.

Lemma dichrotic_window_before_detection (PS : pulse_sensor_t) (ms : Z) :
  dichrotic_window (before_detection PS ms) = dichrotic_window PS.
Proof.
  destruct (before_detection_fields PS ms) as (_ & _ & _ & _ & Hibi & _).
  unfold dichrotic_window. rewrite Hibi. reflexivity.
Qed.

Lemma no_edge_call (PS : pulse_sensor_t) (ms : Z) :
  detects_edge PS ms = false ->
  detect_beat (before_detection PS ms) = Continue (before_detection PS ms) /\
  pulse_sensor_process_sample PS ms
  = Some (stale_signal_timeout (end_of_beat (before_detection PS ms))).
Proof.
  intros Hedge.
  pose proof (pulse_sensor_process_sample_cases PS ms) as Hcases.
  cbn zeta in Hcases. rewrite Hedge in Hcases.
  destruct Hcases as [(_ & Hflow & Heq)|[(? & _)|[(? & _)|(? & _)]]];
    try discriminate.
  split; assumption.
Qed.

Lemma below_noise_floor (PS : pulse_sensor_t) (ms : Z) :
  time_since_last_beat PS ms <= 250 \/
  time_since_last_beat PS ms <= dichrotic_window PS ->
  detects_edge PS ms = false.
Proof.
  unfold detects_edge, beat_edge. cbn zeta.
  rewrite dichrotic_window_before_detection, N_before_detection.
  intros [Hfloor|Hwindow].
  - apply Z.ltb_ge in Hfloor. rewrite Hfloor. reflexivity.
  - apply Z.ltb_ge in Hwindow. rewrite Hwindow. rewrite !andb_false_r. reflexivity.
Qed.

(** C6. Noise floors: in a session, a call whose [N] is at most 250, or
    at most [(IBI/5)*3], does not take the beat-edge branch: the
    detection block leaves the handle as it found it, the call does not
    set [pulse], and [IBI] and [last_beat_time] change only if the
    timeout block ([N > 2500]) runs, which writes 600 and the sample
    clock. *)
Theorem noise_floors_respected (o : byte_order) (PS : pulse_sensor_t) (ms : Z) :
  reachable o PS ->
  time_since_last_beat PS ms <= 250 \/
  time_since_last_beat PS ms <= IBI PS / 5 * 3 ->
  detects_edge PS ms = false /\
  detect_beat (before_detection PS ms) = Continue (before_detection PS ms) /\
  exists PS' : pulse_sensor_t,
    pulse_sensor_process_sample PS ms = Some PS' /\
    (pulse PS' = true -> pulse PS = true) /\
    (time_since_last_beat PS ms <= 2500 ->
     IBI PS' = IBI PS /\ last_beat_time PS' = last_beat_time PS) /\
    (2500 < time_since_last_beat PS ms ->
     IBI PS' = 600 /\ last_beat_time PS' = sample_counter PS').
Proof.
  intros Hreach Hfloor.
  apply reachable_invariant in Hreach. destruct Hreach as [_ Hu32 _ _ _ _].
  rewrite <- (dichrotic_window_eq PS Hu32) in Hfloor.
  pose proof (below_noise_floor PS ms Hfloor) as Hedge.
  destruct (no_edge_call PS ms Hedge) as (Hflow & Hcall).
  split; [exact Hedge|]. split; [exact Hflow|].
  eexists. split; [exact Hcall|].
  rewrite <- N_before_detection.
  destruct (before_detection_fields PS ms)
    as (_ & _ & _ & _ & Hibi1 & Hpulse1 & _ & _ & _ & Hlbt1 & _).
  set (P1 := before_detection PS ms) in *.
  destruct (end_of_beat_fields P1)
    as (Hpulse & _ & _ & Hibi & _ & _ & Hlbt & _ & _ & HN & _).
  destruct (Z_lt_le_dec 2500 (N (end_of_beat P1))) as [Hgt|Hle].
  - destruct (stale_signal_timeout_taken _ Hgt)
      as (_ & Hibi' & Hpulse' & _ & _ & _ & _ & _ & Hlbt' & _).
    cbn zeta in *. repeat split; try congruence; lia.
  - rewrite stale_signal_timeout_skipped by exact Hle.
    repeat split; try congruence; try lia.
    rewrite Hpulse, Hpulse1. intros H. apply andb_prop in H as [H _]. exact H.
Qed.

(** A call 100 ms after the first beat of a session. *)
Lemma noise_floors_respected_witness :
  exists PS : pulse_sensor_t,
    session LittleEndian [store_signal volts_1; call_process_sample 500] = Some PS /\
    time_since_last_beat PS 100 = 100 /\
    detects_edge PS 100 = false /\
    detect_beat (before_detection PS 100) = Continue (before_detection PS 100).
Proof.
  destruct (session LittleEndian [store_signal volts_1; call_process_sample 500])
    as [PS|] eqn:Hrun; [|vm_compute in Hrun; discriminate].
  exists PS. split; [reflexivity|].
  assert (Hreach : reachable LittleEndian PS).
  { refine (session_reachable LittleEndian _ PS _ Hrun).
    repeat constructor; unfold is_u32; lia. }
  assert (HN : time_since_last_beat PS 100 = 100)
    by (vm_compute in Hrun; injection Hrun as <-; reflexivity).
  split; [exact HN|].
  destruct (noise_floors_respected LittleEndian PS 100 Hreach) as (Hedge & Hflow & _).
  - left. rewrite HN. lia.
  - split; assumption.
Defined.

(** ** The warm-up beats *)

(** Until a first edge is found the first beat stays awaited. *)
Lemma first_beat_awaited_until_edge (o : byte_order) (cs : list call) :
  forall PS PS' : pulse_sensor_t,
    first_beat PS = true ->
    no_edge_so_far o cs PS = true ->
    run o cs PS = Some PS' ->
    first_beat PS' = true.
Proof.
  induction cs as [|c cs IH]; intros PS PS' Hfirst Hquiet Hrun;
    cbn [run no_edge_so_far] in *.
  - injection Hrun as <-. exact Hfirst.
  - destruct (exec o c PS) as [Q|] eqn:Hexec; [|discriminate].
    apply andb_prop in Hquiet as [Hc Hquiet].
    apply (IH Q PS'); [|exact Hquiet|exact Hrun].
    destruct c as [v|threshold|ms|]; cbn [exec] in Hexec.
    + injection Hexec as <-. destruct PS. exact Hfirst.
    + injection Hexec as <-. destruct PS. exact Hfirst.
    + apply negb_true_iff in Hc.
      destruct (no_edge_call PS ms Hc) as (_ & Hcall).
      rewrite Hcall in Hexec. injection Hexec as <-.
      destruct (before_detection_fields PS ms)
        as (_ & _ & _ & _ & _ & _ & _ & _ & _ & _ & _ & _ & Hfb1 & _).
      destruct (end_of_beat_fields (before_detection PS ms))
        as (_ & _ & _ & _ & _ & _ & _ & _ & _ & _ & Hfb & _).
      destruct (Z_lt_le_dec 2500 (N (end_of_beat (before_detection PS ms))))
        as [Hgt|Hle].
      * destruct (stale_signal_timeout_taken _ Hgt)
          as (_ & _ & _ & _ & _ & _ & _ & _ & _ & Hfb' & _).
        exact Hfb'.
      * rewrite stale_signal_timeout_skipped by exact Hle. congruence.
    + injection Hexec as <-. destruct PS. reflexivity.
Qed.

(** C5. Warm-up discard: in a session, the call that detects an edge while
    the first beat is awaited returns from the [first_beat] branch; it
    leaves [BPM] and the history as they were and [start_of_beat] false,
    and the second beat is awaited next. *)
Theorem first_edge_discarded (o : byte_order) (PS : pulse_sensor_t) (ms : Z) :
  reachable o PS ->
  first_beat PS = true ->
  detects_edge PS ms = true ->
  exists PS' : pulse_sensor_t,
    pulse_sensor_process_sample PS ms = Some PS' /\
    detect_beat (before_detection PS ms) = Return PS' /\
    BPM PS' = BPM PS /\ rate PS' = rate PS /\ start_of_beat PS' = false /\
    first_beat PS' = false /\ second_beat PS' = true.
Proof.
  intros Hreach Hfirst Hedge.
  apply reachable_invariant in Hreach.
  destruct Hreach as [_ _ _ Hphase Hwarm _].
  destruct (Hwarm (or_introl Hfirst)) as [Hsob0 _].
  pose proof (pulse_sensor_process_sample_cases PS ms) as Hcases.
  cbn zeta in Hcases. rewrite Hedge, Hfirst in Hcases.
  destruct Hcases as [(? & _)|[(_ & _ & Hflow & Hcall)|[(_ & ? & _)|(_ & ? & _)]]];
    try discriminate.
  eexists. split; [exact Hcall|]. split; [exact Hflow|].
  destruct (before_detection_fields PS ms)
    as (_ & _ & _ & Hbpm1 & _ & _ & Hsob1 & _ & _ & _ & Hrate1 & _ & _ & Hsb1).
  destruct (register_beat_fields (before_detection PS ms))
    as (_ & _ & _ & _ & Hrate & _ & Hbpm & Hsob & _).
  rewrite Hsb1, (Hphase Hfirst) in Hrate.
  destruct (register_beat (before_detection PS ms)). simpl_fields.
  repeat split; congruence.
Qed.

Lemma first_edge_discarded_witness :
  exists PS PS' : pulse_sensor_t,
    session LittleEndian [store_signal volts_1] = Some PS /\
    pulse_sensor_process_sample PS 500 = Some PS' /\
    BPM PS' = BPM PS /\ rate PS' = rate PS /\ start_of_beat PS' = false.
Proof.
  destruct (session LittleEndian [store_signal volts_1]) as [PS|] eqn:Hrun;
    [|vm_compute in Hrun; discriminate].
  assert (Hreach : reachable LittleEndian PS).
  { refine (session_reachable LittleEndian _ PS _ Hrun).
    repeat constructor. }
  assert (Hfacts : first_beat PS = true /\ detects_edge PS 500 = true)
    by (vm_compute in Hrun; injection Hrun as <-; split; reflexivity).
  destruct Hfacts as (Hfirst & Hedge).
  destruct (first_edge_discarded LittleEndian PS 500 Hreach Hfirst Hedge)
    as (PS' & Hcall & _ & Hbpm & Hrate & Hsob & _).
  exists PS, PS'. repeat split; assumption.
Defined.

(** ** Calls that update the history *)

(** What the detection block leaves when it finds an edge outside the
    first-beat branch. *)
Lemma edge_call (PS : pulse_sensor_t) (ms : Z) :
  length (rate PS) = 10%nat ->
  detects_edge PS ms = true ->
  first_beat PS = false ->
  let ibi := u32 (time_since_last_beat PS ms) in
  let H := drop 1 (if second_beat PS then replicate 10 ibi else rate PS) ++ [ibi] in
  let total := u32 (sum_rate H) / 10 in
  bpm_divisor PS ms = Some total /\
  (total = 0 ->
   detect_beat (before_detection PS ms) = Undefined /\
   pulse_sensor_process_sample PS ms = None) /\
  (total <> 0 ->
   exists P3 : pulse_sensor_t,
     detect_beat (before_detection PS ms) = Continue P3 /\
     pulse_sensor_process_sample PS ms = Some (stale_signal_timeout (end_of_beat P3)) /\
     rate P3 = H /\ IBI P3 = ibi /\ BPM P3 = u8 (60000 / total) /\
     start_of_beat P3 = true /\ pulse P3 = true /\
     last_beat_time P3 = sample_counter P3 /\
     N P3 = time_since_last_beat PS ms /\
     first_beat P3 = false /\ second_beat P3 = false /\
     thresh_setting P3 = thresh_setting PS).
Proof.
  intros Hlen Hedge Hfirst. cbn zeta.
  pose proof (N_before_detection PS ms) as HN1.
  destruct (before_detection_fields PS ms)
    as (Hsc1 & HN1' & _ & _ & _ & _ & _ & Hts1 & _ & Hlbt1 & Hrate1 & _ & Hfb1 & Hsb1).
  pose proof (pulse_sensor_process_sample_cases PS ms) as Hcases.
  cbn zeta in Hcases. rewrite Hedge, Hfirst in Hcases.
  unfold bpm_divisor. rewrite Hedge.
  set (P1 := before_detection PS ms) in *.
  destruct (register_beat_fields P1)
    as (Hpulse2 & Hibi2 & Hlbt2 & Hsb2 & Hrate2 & _ & _ & _ & Hts2 & _ & Hsc2
        & HN2 & _ & _ & _ & Hfb2).
  set (P2 := register_beat P1) in *.
  assert (Hibi : IBI P2 = u32 (time_since_last_beat PS ms)).
  { rewrite Hibi2, <- HN1, HN1', Hsc1, Hlbt1. reflexivity. }
  assert (Hrate : rate P2 = if second_beat PS
                            then replicate 10 (u32 (time_since_last_beat PS ms))
                            else rate PS).
  { rewrite Hrate2, Hsb1, Hrate1, Hibi. destruct (second_beat PS); [|reflexivity].
    apply seed_rate_full, Hlen. }
  assert (Hlen2 : length (rate P2) = 10%nat).
  { rewrite Hrate. destruct (second_beat PS); [reflexivity|exact Hlen]. }
  destruct (running_average_shifts P2 Hlen2) as (Hrate3 & Htotal).
  rewrite Hrate, Hibi in Hrate3, Htotal.
  destruct (running_average_fields P2)
    as (_ & _ & _ & _ & Hibi3 & Hpulse3 & _ & Hts3 & _ & Hlbt3 & Hsc3 & HN3 & _ & _ & _
        & Hfb3 & Hsb3).
  replace (first_beat P2) with false by congruence.
  rewrite Htotal in *.
  split; [reflexivity|].
  destruct Hcases as [(? & _)|[(_ & ? & _)|[(_ & _ & Hzero & Hflow & Hcall)
                     |(_ & _ & Hnz & Hflow & Hcall)]]]; try discriminate.
  - split; [intros _; split; assumption|]. intros Hnz. contradiction.
  - split; [intros Hzero; contradiction|]. intros _.
    eexists. split; [exact Hflow|]. split; [exact Hcall|].
    destruct (fst (running_average P2)). simpl_fields.
    repeat split; congruence.
Qed.

(** The blocks after the detection keep the beat bookkeeping when the
    timeout does not run. *)
Lemma after_detection_quiet (PS : pulse_sensor_t) :
  N PS <= 2500 ->
  let PS' := stale_signal_timeout (end_of_beat PS) in
  BPM PS' = BPM PS /\ IBI PS' = IBI PS /\ rate PS' = rate PS /\
  start_of_beat PS' = start_of_beat PS /\
  last_beat_time PS' = last_beat_time PS /\
  first_beat PS' = first_beat PS /\ second_beat PS' = second_beat PS.
Proof.
  intros HN. cbn zeta.
  destruct (end_of_beat_fields PS)
    as (_ & _ & Hbpm & Hibi & Hsob & _ & Hlbt & Hrate & _ & HN' & Hfb & Hsb).
  rewrite stale_signal_timeout_skipped by lia.
  repeat split; assumption.
Qed.

(** The blocks after the detection, when the timeout runs. *)
Lemma after_detection_timeout (PS : pulse_sensor_t) :
  2500 < N PS ->
  let PS' := stale_signal_timeout (end_of_beat PS) in
  timed_out PS' /\ rate PS' = rate PS /\
  thresh_setting PS' = thresh_setting PS.
Proof.
  intros HN. cbn zeta.
  destruct (end_of_beat_fields PS)
    as (_ & _ & _ & _ & _ & Hts & _ & Hrate & _ & HN' & _).
  rewrite <- HN' in HN.
  destruct (stale_signal_timeout_taken _ HN)
    as (? & ? & ? & ? & ? & ? & ? & ? & ? & ? & ? & Hrate' & _ & _ & _ & Hts').
  cbn zeta in *. unfold timed_out. repeat split; congruence.
Qed.

Lemma bpm_fits (d : Z) : 235 <= d -> u8 (60000 / d) = 60000 / d.
Proof.
  intros Hd. apply u8_small. unfold is_u8. split.
  - apply Z.div_pos; lia.
  - apply Z.div_lt_upper_bound; lia.
Qed.

(** C4. Second-edge seeding: in a session, when the call that detects the
    edge awaited as second beat computes [N <= 2500], then after the call
    every slot of the history holds the IBI of that call, which is [N],
    and [BPM] is [60000 / IBI]. *)
Theorem second_edge_seeds_history (o : byte_order) (PS : pulse_sensor_t) (ms : Z) :
  reachable o PS ->
  second_beat PS = true ->
  detects_edge PS ms = true ->
  time_since_last_beat PS ms <= 2500 ->
  exists PS' : pulse_sensor_t,
    pulse_sensor_process_sample PS ms = Some PS' /\
    IBI PS' = time_since_last_beat PS ms /\
    rate PS' = replicate 10 (IBI PS') /\
    BPM PS' = 60000 / IBI PS' /\
    start_of_beat PS' = true /\
    first_beat PS' = false /\ second_beat PS' = false.
Proof.
  intros Hreach Hsecond Hedge HN.
  apply reachable_invariant in Hreach.
  destruct Hreach as [Hlen _ _ Hphase _ _].
  assert (Hfirst : first_beat PS = false).
  { destruct (first_beat PS); [|reflexivity].
    rewrite Hphase in Hsecond by reflexivity. discriminate. }
  destruct (detects_edge_true PS ms Hedge) as (H250 & _).
  destruct (edge_call PS ms Hlen Hedge Hfirst) as (_ & _ & Hcall).
  cbn zeta in Hcall. rewrite Hsecond in Hcall.
  rewrite (u32_small (time_since_last_beat PS ms)) in Hcall
    by (unfold is_u32; lia).
  set (ibi := time_since_last_beat PS ms) in *.
  change (drop 1 (replicate 10 ibi) ++ [ibi]) with (replicate 10 ibi) in Hcall.
  rewrite sum_rate_replicate in Hcall.
  assert (Htotal : u32 (Z.of_nat 10 * ibi) / 10 = ibi).
  { rewrite u32_small by (unfold is_u32; lia).
    change (Z.of_nat 10) with 10. rewrite Z.mul_comm. apply Z.div_mul. lia. }
  rewrite Htotal in Hcall.
  destruct Hcall as (P3 & _ & Hcall & Hrate & Hibi & Hbpm & Hsob & _ & _ & HN3
                     & Hfb & Hsb & _); [lia|].
  rewrite bpm_fits in Hbpm by lia.
  destruct (after_detection_quiet P3) as (? & ? & ? & ? & _ & ? & ?); [lia|].
  eexists. split; [exact Hcall|].
  repeat split; congruence.
Qed.

Lemma second_edge_seeds_history_witness :
  exists PS PS' : pulse_sensor_t,
    session LittleEndian second_beat_awaited = Some PS /\
    pulse_sensor_process_sample PS 780 = Some PS' /\
    IBI PS' = 800 /\ rate PS' = replicate 10 800 /\ BPM PS' = 75.
Proof.
  destruct (session LittleEndian second_beat_awaited) as [PS|] eqn:Hrun;
    [|vm_compute in Hrun; discriminate].
  assert (Hreach : reachable LittleEndian PS) by session_reachable_tac.
  assert (Hfacts : second_beat PS = true /\ detects_edge PS 780 = true /\
                   time_since_last_beat PS 780 = 800)
    by (vm_compute in Hrun; injection Hrun as <-; repeat split; reflexivity).
  destruct Hfacts as (Hsecond & Hedge & HN).
  destruct (second_edge_seeds_history LittleEndian PS 780 Hreach Hsecond Hedge)
    as (PS' & Hcall & Hibi & Hrate & Hbpm & _); [lia|].
  rewrite HN in Hibi. rewrite Hibi in Hrate, Hbpm.
  exists PS, PS'. repeat split; assumption.
Defined.

(** C4, as stated without the bound on [N]: in the session
    [second_beat_late] the second edge comes 2520 ms after the first. The
    call seeds the history with 2520 and then runs its timeout block, so
    that afterwards [BPM] is 0 and [IBI] is 600. *)
Lemma second_edge_at_timeout :
  exists PS PS' : pulse_sensor_t,
    session LittleEndian second_beat_late = Some PS /\
    reachable LittleEndian PS /\
    second_beat PS = true /\
    detects_edge PS 520 = true /\
    time_since_last_beat PS 520 = 2520 /\
    pulse_sensor_process_sample PS 520 = Some PS' /\
    rate PS' = replicate 10 2520 /\ IBI PS' = 600 /\ BPM PS' = 0 /\
    BPM PS' <> 60000 / 2520 /\ BPM PS' <> 60000 / IBI PS'.
Proof.
  destruct (session LittleEndian second_beat_late) as [PS|] eqn:Hrun;
    [|vm_compute in Hrun; discriminate].
  assert (Hreach : reachable LittleEndian PS) by session_reachable_tac.
  destruct (pulse_sensor_process_sample PS 520) as [PS'|] eqn:Hcall;
    [|vm_compute in Hrun; injection Hrun as <-; vm_compute in Hcall; discriminate].
  exists PS, PS'. split; [reflexivity|]. split; [exact Hreach|].
  vm_compute in Hrun. injection Hrun as <-.
  vm_compute in Hcall. injection Hcall as <-.
  repeat split; try reflexivity; cbn; discriminate.
Qed.

(** ** The BPM computation *)

Lemma steady_history_sum (PS : pulse_sensor_t) :
  session_invariant PS ->
  first_beat PS = false -> second_beat PS = false ->
  2259 <= sum_rate (drop 1 (rate PS)) <= 22500.
Proof.
  intros [Hlen _ _ _ _ Hsteady] Hfirst Hsecond.
  specialize (Hsteady Hfirst Hsecond).
  pose proof (sum_rate_bounds 251 2500 (drop 1 (rate PS))) as Hsum.
  rewrite length_drop, Hlen in Hsum. change (Z.of_nat (10 - 1)) with 9 in Hsum.
  apply Hsum. apply Forall_drop.
  eapply Forall_impl; [exact Hsteady|]. cbn beta. intros r Hr. lia.
Qed.

Lemma sum_rate_snoc (H : list Z) (x : Z) : sum_rate (H ++ [x]) = sum_rate H + x.
Proof. rewrite sum_rate_app. cbn. lia. Qed.




(** ** The divisor of the BPM computation *)

Lemma time_since_last_beat_bound (o : byte_order) (PS : pulse_sensor_t) (ms : Z) :
  reachable o PS -> is_u32 ms ->
  ms <= time_since_last_beat PS ms <= 2500 + ms.
Proof.
  intros Hreach Hms. unfold is_u32 in Hms. apply reachable_invariant in Hreach.
  destruct Hreach as [_ _ Hgap _ _ _].
  rewrite time_since_last_beat_gap.
  pose proof (u64_range (sample_counter PS - last_beat_time PS)) as Hpos.
  unfold is_u64 in Hpos.
  destruct (Z_lt_le_dec (u64 (sample_counter PS - last_beat_time PS) + ms) (2 ^ 64))
    as [Hsmall|Hbig].
  - rewrite (u64_small (_ + ms)) by (unfold is_u64; lia). lia.
  - change (2 ^ 64) with 18446744073709551616 in *.
    change (2 ^ 32) with 4294967296 in *. lia.
Qed.

Lemma bpm_divisor_first_beat (PS : pulse_sensor_t) (ms : Z) :
  first_beat PS = true -> bpm_divisor PS ms = None.
Proof.
  intros Hfirst. unfold bpm_divisor.
  destruct (detects_edge PS ms); [|reflexivity].
  destruct (before_detection_fields PS ms)
    as (_ & _ & _ & _ & _ & _ & _ & _ & _ & _ & _ & _ & Hfb1 & _).
  destruct (register_beat_fields (before_detection PS ms))
    as (_ & _ & _ & _ & _ & _ & _ & _ & _ & _ & _ & _ & _ & _ & _ & Hfb2).
  rewrite Hfb2, Hfb1, Hfirst. reflexivity.
Qed.

(** C2. In a session, a call whose [N] is at most 429496729 ms never
    divides by zero: when it reaches line 191 the divisor
    [running_total] is not zero, and the call completes. *)
Theorem bpm_divisor_nonzero (o : byte_order) (PS : pulse_sensor_t) (ms : Z) :
  reachable o PS ->
  time_since_last_beat PS ms <= 429496729 ->
  (forall d : Z, bpm_divisor PS ms = Some d -> d <> 0) /\
  exists PS' : pulse_sensor_t, pulse_sensor_process_sample PS ms = Some PS'.
Proof.
  intros Hreach HN.
  apply reachable_invariant in Hreach.
  destruct (detects_edge PS ms) eqn:Hedge.
  2:{ split.
      - unfold bpm_divisor. rewrite Hedge. discriminate.
      - destruct (no_edge_call PS ms Hedge) as (_ & Hcall). eexists. exact Hcall. }
  destruct (first_beat PS) eqn:Hfirst.
  { split.
    - rewrite bpm_divisor_first_beat by exact Hfirst. discriminate.
    - pose proof (pulse_sensor_process_sample_cases PS ms) as Hcases.
      cbn zeta in Hcases. rewrite Hedge, Hfirst in Hcases.
      destruct Hcases as [(? & _)|[(_ & _ & _ & Hcall)|[(_ & ? & _)|(_ & ? & _)]]];
        try discriminate.
      eexists. exact Hcall. }
  destruct (detects_edge_true PS ms Hedge) as (H250 & _).
  pose proof (inv_rate_length PS Hreach) as Hlen.
  destruct (edge_call PS ms Hlen Hedge Hfirst) as (Hdiv & _ & Hcall).
  cbn zeta in Hdiv, Hcall.
  rewrite (u32_small (time_since_last_beat PS ms)) in Hdiv, Hcall
    by (unfold is_u32; lia).
  set (ibi := time_since_last_beat PS ms) in *. clearbody ibi.
  assert (Htotal :
    251 <= u32 (sum_rate (drop 1 (if second_beat PS then replicate 10 ibi
                                  else rate PS) ++ [ibi])) / 10).
  { destruct (second_beat PS) eqn:Hsecond.
    - change (drop 1 (replicate 10 ibi) ++ [ibi]) with (replicate 10 ibi).
      rewrite sum_rate_replicate. change (Z.of_nat 10) with 10.
      rewrite u32_small by (unfold is_u32; lia).
      apply Z.div_le_lower_bound; lia.
    - pose proof (steady_history_sum PS Hreach Hfirst Hsecond) as Hsum.
      rewrite sum_rate_snoc.
      rewrite u32_small by (unfold is_u32; lia).
      apply Z.div_le_lower_bound; lia. }
  split.
  - intros d Hd. rewrite Hdiv in Hd. apply (inj Some) in Hd. subst d. lia.
  - destruct Hcall as (P3 & _ & Hcall & _); [lia|]. eexists. exact Hcall.
Qed.

Lemma bpm_divisor_nonzero_witness :
  exists PS : pulse_sensor_t,
    session LittleEndian steady_session = Some PS /\
    bpm_divisor PS 780 = Some 800 /\ 800 <> 0.
Proof.
  destruct (session LittleEndian steady_session) as [PS|] eqn:Hrun;
    [|vm_compute in Hrun; discriminate].
  assert (Hreach : reachable LittleEndian PS) by session_reachable_tac.
  assert (Hfacts : time_since_last_beat PS 780 = 800 /\
                   bpm_divisor PS 780 = Some 800)
    by (vm_compute in Hrun; injection Hrun as <-; split; reflexivity).
  destruct Hfacts as (HN & Hdiv).
  destruct (bpm_divisor_nonzero LittleEndian PS 780 Hreach) as (Hnz & _);
    [rewrite HN; lia|].
  exists PS. split; [reflexivity|]. split; [exact Hdiv|].
  apply Hnz. exact Hdiv.
Defined.

(** C2, as stated for every call: in the session [second_beat_awaited] a
    call 4294967276 ms later computes [N = 2^32]; the IBI wraps to 0, the
    history is seeded with zeros, and line 191 divides by zero. *)
Lemma bpm_divisor_zero :
  exists PS : pulse_sensor_t,
    session LittleEndian second_beat_awaited = Some PS /\
    reachable LittleEndian PS /\
    is_u32 4294967276 /\
    time_since_last_beat PS 4294967276 = 4294967296 /\
    detects_edge PS 4294967276 = true /\
    bpm_divisor PS 4294967276 = Some 0 /\
    pulse_sensor_process_sample PS 4294967276 = None.
Proof.
  destruct (session LittleEndian second_beat_awaited) as [PS|] eqn:Hrun;
    [|vm_compute in Hrun; discriminate].
  assert (Hreach : reachable LittleEndian PS) by session_reachable_tac.
  exists PS. split; [reflexivity|]. split; [exact Hreach|].
  vm_compute in Hrun. injection Hrun as <-.
  unfold is_u32. repeat split; try reflexivity; lia.
Qed.

(** * Further properties of the driver *)

(** ** The order of [float] values *)

Lemma F32_lt_asym (x y : F32.t) : F32.lt x y = true -> F32.lt y x = false.
Proof.
  unfold F32.lt, SFltb, SFcompare.
  destruct x as [[]|[]| |[] mx ex], y as [[]|[]| |[] my ey];
    try discriminate; try reflexivity.
  - rewrite (Z.compare_antisym ex ey).
    destruct (ex ?= ey)%Z eqn:He; cbn [CompOpp]; try discriminate; try reflexivity.
    pose proof (Pos.compare_cont_antisym mx my Eq) as Hm. cbn [CompOpp] in Hm.
    rewrite <- Hm.
    destruct (Pos.compare_cont Eq mx my); cbn; try discriminate; reflexivity.
  - rewrite (Z.compare_antisym ex ey).
    destruct (ex ?= ey)%Z eqn:He; cbn [CompOpp]; try discriminate; try reflexivity.
    pose proof (Pos.compare_cont_antisym mx my Eq) as Hm. cbn [CompOpp] in Hm.
    rewrite <- Hm.
    destruct (Pos.compare_cont Eq mx my); cbn; try discriminate; reflexivity.
Qed.

Lemma F32_lt_irrefl (x : F32.t) : F32.lt x x = false.
Proof.
  destruct (F32.lt x x) eqn:H; [|reflexivity].
  pose proof (F32_lt_asym x x H). congruence.
Qed.

Lemma F32_gt_not_lt (x y : F32.t) : F32.gt x y = true -> F32.lt x y = false.
Proof. unfold F32.gt. fold (F32.lt y x). apply F32_lt_asym. Qed.

Lemma F32_lt_not_gt (x y : F32.t) : F32.lt x y = true -> F32.gt x y = false.
Proof. intros H. unfold F32.gt. fold (F32.lt y x). apply F32_lt_asym, H. Qed.

(** ** One call, block by block *)

Lemma tracked_trough_eq (PS : pulse_sensor_t) (ms : Z) :
  tracked_trough PS ms
  = if F32.lt (signal PS) (thresh PS)
       && (dichrotic_window PS <? time_since_last_beat PS ms)
       && F32.lt (signal PS) (trough PS)
    then signal PS else trough PS.
Proof.
  destruct PS as [sig bpm ibi pls sob ts amp lbt rt sc n pk tr th fb sb].
  unfold tracked_trough, time_since_last_beat, track_trough, clock_advance,
    dichrotic_window.
  simpl_fields.
  destruct (F32.lt sig th); simpl_fields; [|reflexivity].
  destruct (_ <? _); simpl_fields; [|reflexivity].
  destruct (F32.lt sig tr); reflexivity.
Qed.

Lemma before_detection_envelope (PS : pulse_sensor_t) (ms : Z) :
  trough (before_detection PS ms) = tracked_trough PS ms /\
  peak (before_detection PS ms)
  = (if F32.gt (signal PS) (thresh PS) && F32.gt (signal PS) (peak PS)
     then signal PS else peak PS).
Proof.
  destruct PS as [sig bpm ibi pls sob ts amp lbt rt sc n pk tr th fb sb].
  unfold tracked_trough, before_detection, track_peak, track_trough,
    clock_advance, dichrotic_window.
  simpl_fields. by_cases.
Qed.

Lemma end_of_beat_taken (PS : pulse_sensor_t) :
  F32.lt (signal PS) (thresh PS) = true -> pulse PS = true ->
  let PS' := end_of_beat PS in
  pulse PS' = false /\
  amplitude PS' = F32.sub (peak PS) (trough PS) /\
  thresh PS' = F32.add (F32.div (amplitude PS') (F32.of_int 2)) (trough PS) /\
  peak PS' = thresh PS' /\ trough PS' = thresh PS'.
Proof.
  destruct PS as [sig bpm ibi pls sob ts amp lbt rt sc n pk tr th fb sb].
  simpl_fields. intros Hlt Hpulse. cbn zeta. unfold end_of_beat.
  simpl_fields. rewrite Hlt, Hpulse. simpl_fields. repeat split.
Qed.

Lemma end_of_beat_skipped (PS : pulse_sensor_t) :
  F32.lt (signal PS) (thresh PS) && pulse PS = false -> end_of_beat PS = PS.
Proof. intros H. unfold end_of_beat. rewrite H. reflexivity. Qed.

(** The handle [Q] that the detection block of a completed call leaves,
    in each of the three ways through it. *)
Lemma detection_outcome (PS PS' : pulse_sensor_t) (ms : Z) :
  pulse_sensor_process_sample PS ms = Some PS' ->
  exists Q : pulse_sensor_t,
    (signal Q = signal PS /\ thresh_setting Q = thresh_setting PS /\
     thresh Q = thresh PS /\ amplitude Q = amplitude PS /\
     peak Q = peak (before_detection PS ms) /\
     trough Q = trough (before_detection PS ms) /\
     sample_counter Q = u64 (sample_counter PS + ms) /\
     N Q = time_since_last_beat PS ms) /\
    ((detects_edge PS ms = false /\
      PS' = stale_signal_timeout (end_of_beat Q) /\
      pulse Q = pulse PS /\ IBI Q = IBI PS /\
      last_beat_time Q = last_beat_time PS /\
      first_beat Q = first_beat PS /\ second_beat Q = second_beat PS /\
      start_of_beat Q = start_of_beat PS /\ BPM Q = BPM PS /\
      rate Q = rate PS)
     \/
     (detects_edge PS ms = true /\ first_beat PS = true /\ PS' = Q /\
      pulse Q = true /\ IBI Q = u32 (time_since_last_beat PS ms) /\
      last_beat_time Q = sample_counter Q /\
      first_beat Q = false /\ second_beat Q = true /\
      start_of_beat Q = start_of_beat PS /\ BPM Q = BPM PS)
     \/
     (detects_edge PS ms = true /\ first_beat PS = false /\
      PS' = stale_signal_timeout (end_of_beat Q) /\
      pulse Q = true /\ IBI Q = u32 (time_since_last_beat PS ms) /\
      last_beat_time Q = sample_counter Q /\
      first_beat Q = false /\ second_beat Q = false /\
      start_of_beat Q = true)).
Proof.
  intros Hcall.
  pose proof (N_before_detection PS ms) as HN1.
  destruct (before_detection_fields PS ms)
    as (Hsc1 & HN1' & Hsig1 & Hbpm1 & Hibi1 & Hpulse1 & Hsob1 & Hts1 & Hamp1
        & Hlbt1 & Hrate1 & Hth1 & Hfb1 & Hsb1).
  pose proof (pulse_sensor_process_sample_cases PS ms) as Hcases.
  cbn zeta in Hcases.
  set (P1 := before_detection PS ms) in *.
  destruct (register_beat_fields P1)
    as (Hpulse2 & Hibi2 & Hlbt2 & Hsb2 & _ & Hsig2 & Hbpm2 & Hsob2 & Hts2 & Hamp2
        & Hsc2 & HN2 & Hpk2 & Htr2 & Hth2 & Hfb2).
  assert (Hibi : IBI (register_beat P1) = u32 (time_since_last_beat PS ms)).
  { rewrite Hibi2, <- HN1, HN1', Hsc1, Hlbt1. reflexivity. }
  destruct Hcases
    as [(Hedge & _ & Heq)|[(Hedge & Hfirst & _ & Heq)|[(_ & _ & _ & _ & Heq)
       |(Hedge & Hfirst & _ & _ & Heq)]]];
    rewrite Heq in Hcall; [| |discriminate|];
    apply (inj Some) in Hcall; subst PS'; clear Heq.
  - exists P1. split; [repeat split; congruence|].
    left. repeat split; congruence.
  - eexists. split; [|right; left; split; [exact Hedge|]; split; [exact Hfirst|];
                      split; [reflexivity|]].
    + destruct (register_beat P1). simpl_fields. repeat split; congruence.
    + destruct (register_beat P1). simpl_fields. repeat split; congruence.
  - destruct (running_average_fields (register_beat P1))
      as (_ & _ & Hsig3 & _ & Hibi3 & Hpulse3 & _ & Hts3 & Hamp3 & Hlbt3 & Hsc3
          & HN3 & Hpk3 & Htr3 & Hth3 & Hfb3 & Hsb3).
    cbn zeta.
    eexists. split; [|right; right; split; [exact Hedge|]; split; [exact Hfirst|];
                      split; [reflexivity|]].
    + destruct (fst (running_average (register_beat P1))). simpl_fields.
      repeat split; congruence.
    + destruct (fst (running_average (register_beat P1))). simpl_fields.
      repeat split; congruence.
Qed.

(** ** The sample clock over a session *)

Lemma call_sample_counter (PS PS' : pulse_sensor_t) (ms : Z) :
  pulse_sensor_process_sample PS ms = Some PS' ->
  sample_counter PS' = u64 (sample_counter PS + ms).
Proof.
  intros Hcall.
  destruct (detection_outcome PS PS' ms Hcall)
    as (Q & (_ & _ & _ & _ & _ & _ & Hsc & HN) & Hway).
  destruct Hway as [(_ & -> & _)|[(_ & _ & -> & _)|(_ & _ & -> & _)]];
    try exact Hsc.
  all: destruct (end_of_beat_fields Q)
         as (_ & _ & _ & _ & _ & _ & _ & _ & Hsc' & HN' & _);
       destruct (Z_lt_le_dec 2500 (N (end_of_beat Q))) as [Hgt|Hle];
       [destruct (stale_signal_timeout_taken _ Hgt)
          as (_ & _ & _ & _ & _ & _ & _ & _ & _ & _ & _ & _ & Hsc'' & _);
        cbn zeta in Hsc''; congruence
       |rewrite stale_signal_timeout_skipped by exact Hle; congruence].
Qed.

(** X1. Monotonic clock: over a session without [reset_variables], the
    sample clock advances by the sum of the [ms] arguments, modulo 2^64,
    whichever way each call goes through the function (the first-beat
    return included). *)
Theorem sample_clock_prefix_sum (o : byte_order) (cs : list call) :
  forall PS PS' : pulse_sensor_t,
    is_u64 (sample_counter PS) ->
    run o cs PS = Some PS' ->
    has_reset cs = false ->
    sample_counter PS' = u64 (sample_counter PS + elapsed cs).
Proof.
  induction cs as [|c cs IH]; intros PS PS' Hsc Hrun Hreset;
    cbn [run elapsed has_reset] in *.
  - injection Hrun as <-. rewrite Z.add_0_r. symmetry. apply u64_small, Hsc.
  - destruct (exec o c PS) as [Q|] eqn:Hexec; [|discriminate].
    destruct c as [v|threshold|ms|]; cbn [exec] in Hexec;
      try discriminate Hreset.
    + injection Hexec as <-.
      rewrite (IH (set_signal v PS) PS'); destruct PS; auto.
    + injection Hexec as <-.
      rewrite (IH (set_threshold PS threshold) PS'); destruct PS; auto.
    + pose proof (call_sample_counter PS Q ms Hexec) as HQ.
      rewrite (IH Q PS'); [|rewrite HQ; apply u64_range|exact Hrun|exact Hreset].
      rewrite HQ. unfold u64. rewrite Zplus_mod_idemp_l. f_equal. lia.
Qed.

Lemma sample_clock_prefix_sum_witness :
  exists PS : pulse_sensor_t,
    session LittleEndian steady_session = Some PS /\
    sample_counter PS = 1320.
Proof.
  destruct (session LittleEndian steady_session) as [PS|] eqn:Hrun;
    [|vm_compute in Hrun; discriminate].
  exists PS. split; [reflexivity|].
  rewrite (sample_clock_prefix_sum LittleEndian steady_session
             (heart_rate_init LittleEndian stale_handle) PS).
  - reflexivity.
  - unfold is_u64. cbn. lia.
  - exact Hrun.
  - reflexivity.
Defined.

(** X2. Between the calls of a session the last beat is never more than
    2500 ms behind the sample clock, so the [N] that the next call
    computes is its [ms] argument plus at most 2500. *)
Theorem beat_clock_lag (o : byte_order) (PS : pulse_sensor_t) :
  reachable o PS ->
  u64 (sample_counter PS - last_beat_time PS) <= 2500 /\
  forall ms : Z,
    is_u32 ms -> ms <= time_since_last_beat PS ms <= 2500 + ms.
Proof.
  intros Hreach. split.
  - apply reachable_invariant in Hreach. apply (inv_gap PS Hreach).
  - intros ms Hms. apply (time_since_last_beat_bound o); assumption.
Qed.

Lemma beat_clock_lag_witness :
  exists PS : pulse_sensor_t,
    session LittleEndian second_beat_late = Some PS /\
    2000 <= time_since_last_beat PS 2000 <= 4500.
Proof.
  destruct (session LittleEndian second_beat_late) as [PS|] eqn:Hrun;
    [|vm_compute in Hrun; discriminate].
  assert (Hreach : reachable LittleEndian PS) by session_reachable_tac.
  exists PS. split; [reflexivity|].
  destruct (beat_clock_lag LittleEndian PS Hreach) as (_ & Hlag).
  apply Hlag. unfold is_u32. lia.
Defined.

(** ** What a call leaves alone *)

Lemma call_frame (PS PS' : pulse_sensor_t) (ms : Z) :
  pulse_sensor_process_sample PS ms = Some PS' ->
  signal PS' = signal PS /\ thresh_setting PS' = thresh_setting PS.
Proof.
  intros Hcall.
  destruct (detection_outcome PS PS' ms Hcall)
    as (Q & (Hsig & Hts & _) & Hway).
  destruct Hway as [(_ & -> & _)|[(_ & _ & -> & _)|(_ & _ & -> & _)]];
    try (split; assumption).
  all: destruct (end_of_beat_fields Q)
         as (_ & Hsig' & _ & _ & _ & Hts' & _);
       destruct (Z_lt_le_dec 2500 (N (end_of_beat Q))) as [Hgt|Hle];
       [destruct (stale_signal_timeout_taken _ Hgt)
          as (_ & _ & _ & _ & _ & _ & _ & _ & _ & _ & _ & _ & _ & _ & Hsig'' & Hts'');
        cbn zeta in Hsig'', Hts''; split; congruence
       |rewrite stale_signal_timeout_skipped by exact Hle; split; congruence].
Qed.

(** X3. The reading that the caller stored before a call is the one
    [get_latest_sample] returns after it: [pulse_sensor_process_sample]
    never writes [signal]. *)
Theorem latest_sample_survives_call (PS PS' : pulse_sensor_t) (v : F32.t) (ms : Z) :
  pulse_sensor_process_sample (set_signal v PS) ms = Some PS' ->
  fst (get_latest_sample PS') = v /\ snd (get_latest_sample PS') = PS'.
Proof.
  intros Hcall. destruct (call_frame _ _ _ Hcall) as (Hsig & _).
  split; [|reflexivity].
  unfold get_latest_sample. cbn [fst]. rewrite Hsig. destruct PS. reflexivity.
Qed.

Lemma latest_sample_survives_call_witness :
  exists PS' : pulse_sensor_t,
    pulse_sensor_process_sample (set_signal volts_1 stale_handle) 20 = Some PS' /\
    fst (get_latest_sample PS') = volts_1.
Proof.
  destruct (pulse_sensor_process_sample (set_signal volts_1 stale_handle) 20)
    as [PS'|] eqn:Hcall; [|vm_compute in Hcall; discriminate].
  exists PS'. split; [reflexivity|].
  apply (latest_sample_survives_call stale_handle PS' volts_1 20 Hcall).
Defined.

(** X4. Only [set_threshold] changes the threshold setting: at the end
    of a session it is the argument of the last [set_threshold], or the
    setting the session started with; [pulse_sensor_process_sample] and
    [reset_variables] read it and never write it. *)
Theorem threshold_setting_of_session (o : byte_order) (cs : list call) :
  forall PS PS' : pulse_sensor_t,
    run o cs PS = Some PS' ->
    thresh_setting PS' = last_threshold cs (thresh_setting PS).
Proof.
  induction cs as [|c cs IH]; intros PS PS' Hrun; cbn [run last_threshold] in *.
  - injection Hrun as <-. reflexivity.
  - destruct (exec o c PS) as [Q|] eqn:Hexec; [|discriminate].
    rewrite (IH Q PS' Hrun).
    destruct c as [v|threshold|ms|]; cbn [exec] in Hexec.
    + injection Hexec as <-. destruct PS. reflexivity.
    + injection Hexec as <-. destruct PS. reflexivity.
    + destruct (call_frame PS Q ms Hexec) as (_ & ->). reflexivity.
    + injection Hexec as <-. destruct PS. reflexivity.
Qed.

Lemma threshold_setting_of_session_witness :
  exists PS : pulse_sensor_t,
    run LittleEndian
      [call_set_threshold volts_1; store_signal volts_0_25;
       call_process_sample 3000; call_reset_variables;
       call_set_threshold volts_0_25; call_process_sample 20]
      stale_handle = Some PS /\
    thresh_setting PS = volts_0_25.
Proof.
  destruct (run LittleEndian
      [call_set_threshold volts_1; store_signal volts_0_25;
       call_process_sample 3000; call_reset_variables;
       call_set_threshold volts_0_25; call_process_sample 20]
      stale_handle) as [PS|] eqn:Hrun; [|vm_compute in Hrun; discriminate].
  exists PS. split; [reflexivity|].
  apply (threshold_setting_of_session LittleEndian _ stale_handle PS Hrun).
Defined.

(** ** The warm-up state machine *)

Lemma after_detection_flags (Q : pulse_sensor_t) :
  let PS' := stale_signal_timeout (end_of_beat Q) in
  (N Q <= 2500 /\ first_beat PS' = first_beat Q /\
   second_beat PS' = second_beat Q /\ start_of_beat PS' = start_of_beat Q /\
   BPM PS' = BPM Q /\ IBI PS' = IBI Q /\ rate PS' = rate Q /\
   last_beat_time PS' = last_beat_time Q /\
   sample_counter PS' = sample_counter Q)
  \/
  (2500 < N Q /\ timed_out PS' /\ rate PS' = rate Q /\
   sample_counter PS' = sample_counter Q).
Proof.
  cbn zeta.
  destruct (end_of_beat_fields Q)
    as (_ & _ & Hbpm & Hibi & Hsob & _ & Hlbt & Hrate & Hsc & HN & Hfb & Hsb).
  destruct (Z_lt_le_dec 2500 (N Q)) as [Hgt|Hle].
  - right. split; [exact Hgt|].
    destruct (after_detection_timeout Q Hgt) as (Hout & Hrate' & _).
    rewrite <- HN in Hgt.
    destruct (stale_signal_timeout_taken _ Hgt)
      as (_ & _ & _ & _ & _ & _ & _ & _ & _ & _ & _ & _ & Hsc' & _).
    cbn zeta in Hsc', Hout, Hrate'.
    split; [exact Hout|]. split; [exact Hrate'|]. congruence.
  - left. rewrite stale_signal_timeout_skipped by lia.
    repeat split; assumption.
Qed.

(** X5. One call moves the warm-up state machine by at most one step:
    while the first beat is awaited it stays awaited unless the call
    detects an edge, after which the second beat is awaited; the steady
    phase never falls back to awaiting the second beat, and leaves for
    awaiting the first beat only by the timeout; and the second beat
    stays awaited unless the call detects an edge or times out. *)
Theorem warm_up_transitions (PS PS' : pulse_sensor_t) (ms : Z) :
  pulse_sensor_process_sample PS ms = Some PS' ->
  (first_beat PS = true ->
   first_beat PS' = true \/
   (detects_edge PS ms = true /\ first_beat PS' = false /\ second_beat PS' = true))
  /\
  (first_beat PS = false -> second_beat PS = false ->
   second_beat PS' = false /\
   (first_beat PS' = true -> 2500 < time_since_last_beat PS ms))
  /\
  (first_beat PS = false -> second_beat PS = true ->
   second_beat PS' = false ->
   detects_edge PS ms = true \/ 2500 < time_since_last_beat PS ms).
Proof.
  intros Hcall.
  destruct (detection_outcome PS PS' ms Hcall)
    as (Q & (_ & _ & _ & _ & _ & _ & _ & HN) & Hway).
  destruct Hway
    as [(Hedge & -> & _ & _ & _ & Hfb & Hsb & _)
       |[(Hedge & Hfirst & -> & _ & _ & _ & Hfb & Hsb & _)
       |(Hedge & Hfirst & -> & _ & _ & _ & Hfb & Hsb & _)]].
  - destruct (after_detection_flags Q)
      as [(_ & Hfb' & Hsb' & _)|(Hgt & Hout & _)]; cbn zeta in *.
    + repeat split.
      * intros Hf. left. congruence.
      * congruence.
      * congruence.
      * intros Hf Hs Hs'. congruence.
    + destruct Hout as (_ & _ & _ & _ & _ & _ & _ & _ & _ & Hfb' & Hsb').
      repeat split.
      * intros Hf. left. exact Hfb'.
      * exact Hsb'.
      * intros _. lia.
      * intros _ _ _. right. lia.
  - repeat split.
    + intros _. right. repeat split; assumption.
    + congruence.
    + congruence.
    + intros; left; exact Hedge.
  - destruct (after_detection_flags Q)
      as [(_ & Hfb' & Hsb' & _)|(Hgt & Hout & _)]; cbn zeta in *.
    + repeat split; try congruence; intros; left; exact Hedge.
    + destruct Hout as (_ & _ & _ & _ & _ & _ & _ & _ & _ & Hfb' & Hsb').
      repeat split; try congruence; try (intros; lia); intros; left; exact Hedge.
Qed.

Lemma warm_up_transitions_witness :
  exists PS PS' : pulse_sensor_t,
    session LittleEndian steady_session = Some PS /\
    pulse_sensor_process_sample PS 780 = Some PS' /\
    second_beat PS' = false.
Proof.
  destruct (session LittleEndian steady_session) as [PS|] eqn:Hrun;
    [|vm_compute in Hrun; discriminate].
  destruct (pulse_sensor_process_sample PS 780) as [PS'|] eqn:Hcall;
    [|vm_compute in Hrun; injection Hrun as <-; vm_compute in Hcall; discriminate].
  exists PS, PS'. split; [reflexivity|]. split; [exact Hcall|].
  destruct (warm_up_transitions PS PS' 780 Hcall) as (_ & Hsteady & _).
  apply Hsteady; vm_compute in Hrun; injection Hrun as <-; reflexivity.
Defined.

(** ** What the handle reports in the steady phase *)

Lemma steady_history_after_edge (L : list Z) (ibi : Z) :
  length L = 10%nat ->
  Forall (fun r => 250 < r <= 2500) L ->
  250 < ibi <= 2500 ->
  let H := drop 1 L ++ [ibi] in
  H !! 9%nat = Some ibi /\
  u32 (sum_rate H) / 10 = sum_rate H / 10 /\
  251 <= sum_rate H / 10 <= 2500.
Proof.
  intros Hlen HL Hibi. cbn zeta.
  pose proof (sum_rate_bounds 251 2500 (drop 1 L)) as Hsum.
  rewrite length_drop, Hlen in Hsum. change (Z.of_nat (10 - 1)) with 9 in Hsum.
  assert (Hbounds : 2259 <= sum_rate (drop 1 L) <= 22500).
  { apply Hsum, Forall_drop. eapply Forall_impl; [exact HL|].
    cbn beta. intros r Hr. lia. }
  rewrite sum_rate_snoc. split; [|split].
  - rewrite lookup_app_r by (rewrite length_drop, Hlen; cbn; lia).
    rewrite length_drop, Hlen. reflexivity.
  - rewrite u32_small by (unfold is_u32; lia). reflexivity.
  - split.
    + apply Z.div_le_lower_bound; lia.
    + apply Z.div_le_upper_bound; lia.
Qed.

Lemma steady_report_preserved (PS PS' : pulse_sensor_t) (ms : Z) :
  session_invariant PS ->
  (first_beat PS = false -> second_beat PS = false -> steady_report PS) ->
  pulse_sensor_process_sample PS ms = Some PS' ->
  first_beat PS' = false -> second_beat PS' = false -> steady_report PS'.
Proof.
  intros Hinv Hrep Hcall Hfb' Hsb'.
  destruct (detection_outcome PS PS' ms Hcall)
    as (Q & (_ & _ & _ & _ & _ & _ & _ & HN) & Hway).
  destruct Hway
    as [(Hedge & -> & _ & Hibi & _ & Hfb & Hsb & Hsob & Hbpm & Hrate)
       |[(Hedge & Hfirst & -> & _ & _ & _ & _ & Hsb & _)
       |(Hedge & Hfirst & _)]].
  - destruct (after_detection_flags Q)
      as [(_ & Hfb1 & Hsb1 & Hsob1 & Hbpm1 & Hibi1 & Hrate1 & _)
         |(_ & Hout & _)]; cbn zeta in *.
    + destruct Hrep as [Rsob Ribi Rnew Rbpm]; [congruence|congruence|].
      constructor; congruence.
    + destruct Hout as (_ & _ & _ & _ & _ & _ & _ & _ & _ & Hfb1 & _). congruence.
  - congruence.
  - destruct (detects_edge_true PS ms Hedge) as (H250 & _).
    pose proof (inv_rate_length PS Hinv) as Hlen.
    destruct (edge_call PS ms Hlen Hedge Hfirst) as (_ & Hzero & Hnz).
    cbn zeta in Hzero, Hnz.
    set (ibi := u32 (time_since_last_beat PS ms)) in *.
    set (L := if second_beat PS then replicate 10 ibi else rate PS) in *.
    destruct (Z.eq_dec (u32 (sum_rate (drop 1 L ++ [ibi])) / 10) 0) as [Hz|Hz].
    { destruct (Hzero Hz) as (_ & Hnone). congruence. }
    destruct (Hnz Hz) as (P3 & _ & Hcall3 & Hrate3 & Hibi3 & Hbpm3 & Hsob3 & _ & _
                          & HN3 & _).
    rewrite Hcall3 in Hcall. apply (inj Some) in Hcall. subst PS'.
    destruct (after_detection_flags P3)
      as [(HNle & _ & _ & Hsob4 & Hbpm4 & Hibi4 & Hrate4 & _)
         |(_ & Hout & _)]; cbn zeta in *.
    2:{ destruct Hout as (_ & _ & _ & _ & _ & _ & _ & _ & _ & Hfb1 & _). congruence. }
    assert (Hibi_eq : ibi = time_since_last_beat PS ms)
      by (apply u32_small; unfold is_u32; lia).
    assert (HL : length L = 10%nat /\ Forall (fun r => 250 < r <= 2500) L).
    { unfold L. destruct (second_beat PS) eqn:Hsecond.
      - split; [reflexivity|]. apply Forall_replicate. lia.
      - split; [exact Hlen|]. apply (inv_steady PS Hinv); assumption. }
    destruct HL as (HlenL & HrangeL).
    destruct (steady_history_after_edge L ibi HlenL HrangeL)
      as (Hnew & Hsum & Hlow); [lia|].
    rewrite Hsum in Hbpm3. rewrite bpm_fits in Hbpm3 by lia.
    constructor.
    + congruence.
    + rewrite Hibi4, Hibi3. lia.
    + rewrite Hrate4, Hrate3, Hibi4, Hibi3. exact Hnew.
    + rewrite Hbpm4, Hbpm3, Hrate4, Hrate3. reflexivity.
Qed.

Lemma run_steady_report (o : byte_order) (cs : list call) :
  forall PS PS' : pulse_sensor_t,
    session_invariant PS ->
    (first_beat PS = false -> second_beat PS = false -> steady_report PS) ->
    run o cs PS = Some PS' ->
    first_beat PS' = false -> second_beat PS' = false -> steady_report PS'.
Proof.
  induction cs as [|c cs IH]; intros PS PS' Hinv Hrep Hrun; cbn [run] in Hrun.
  - injection Hrun as <-. exact Hrep.
  - destruct (exec o c PS) as [Q|] eqn:Hexec; [|discriminate].
    apply (IH Q PS'); [eapply exec_invariant; eassumption| |exact Hrun].
    destruct c as [v|threshold|ms|]; cbn [exec] in Hexec.
    + injection Hexec as <-. destruct PS. intros Hf Hs.
      destruct (Hrep Hf Hs). constructor; assumption.
    + injection Hexec as <-. destruct PS. intros Hf Hs.
      destruct (Hrep Hf Hs). constructor; assumption.
    + eapply steady_report_preserved; eassumption.
    + injection Hexec as <-. destruct PS. discriminate.
Qed.

Lemma reachable_steady_report (o : byte_order) (PS : pulse_sensor_t) :
  reachable o PS ->
  first_beat PS = false -> second_beat PS = false -> steady_report PS.
Proof.
  intros (PS0 & cs & Hwt & _ & Hrun).
  apply (run_steady_report o cs (heart_rate_init o PS0) PS); [| |exact Hrun].
  - apply reset_variables_invariant, Hwt.
  - destruct PS0. discriminate.
Qed.

(** X6. In a session [saw_start_of_beat] tells whether the warm-up is
    over and nothing else: it returns false while the first or the second
    beat is awaited and true on every poll of the steady phase, between
    beats as well. *)
Theorem start_of_beat_iff_steady (o : byte_order) (PS : pulse_sensor_t) :
  reachable o PS ->
  fst (saw_start_of_beat PS) = negb (first_beat PS || second_beat PS).
Proof.
  intros Hreach. unfold saw_start_of_beat. cbn [fst].
  pose proof (reachable_invariant o PS Hreach) as Hinv.
  destruct (first_beat PS) eqn:Hfirst.
  - destruct (inv_warm_up PS Hinv (or_introl Hfirst)) as (Hsob & _). exact Hsob.
  - destruct (second_beat PS) eqn:Hsecond.
    + destruct (inv_warm_up PS Hinv (or_intror Hsecond)) as (Hsob & _). exact Hsob.
    + apply (rep_start_of_beat PS).
      apply (reachable_steady_report o); assumption.
Qed.

Lemma start_of_beat_iff_steady_witness :
  exists PS PS' : pulse_sensor_t,
    session LittleEndian steady_session = Some PS /\
    pulse_sensor_process_sample PS 100 = Some PS' /\
    detects_edge PS 100 = false /\
    fst (saw_start_of_beat PS') = true.
Proof.
  destruct (session LittleEndian steady_session) as [PS|] eqn:Hrun;
    [|vm_compute in Hrun; discriminate].
  assert (Hreach : reachable LittleEndian PS) by session_reachable_tac.
  destruct (pulse_sensor_process_sample PS 100) as [PS'|] eqn:Hcall;
    [|vm_compute in Hrun; injection Hrun as <-; vm_compute in Hcall; discriminate].
  assert (Hreach' : reachable LittleEndian PS').
  { apply (reachable_step LittleEndian (call_process_sample 100) PS PS' Hreach);
      [unfold valid_call, is_u32; lia|exact Hcall]. }
  exists PS, PS'. split; [reflexivity|]. split; [exact Hcall|].
  split; [vm_compute in Hrun; injection Hrun as <-; reflexivity|].
  rewrite (start_of_beat_iff_steady LittleEndian PS' Hreach').
  vm_compute in Hrun. injection Hrun as <-.
  vm_compute in Hcall. injection Hcall as <-. reflexivity.
Defined.

(** X7. In a session [get_beats_per_minute] returns 0 while the first or
    the second beat is awaited, and a value between 24 and 239 in the
    steady phase. *)
Theorem beats_per_minute_range (o : byte_order) (PS : pulse_sensor_t) :
  reachable o PS ->
  (first_beat PS || second_beat PS = true -> fst (get_beats_per_minute PS) = 0) /\
  (first_beat PS || second_beat PS = false ->
   24 <= fst (get_beats_per_minute PS) <= 239).
Proof.
  intros Hreach. unfold get_beats_per_minute. cbn [fst].
  pose proof (reachable_invariant o PS Hreach) as Hinv.
  split.
  - intros Hwarm. apply orb_prop in Hwarm.
    destruct (inv_warm_up PS Hinv Hwarm) as (_ & Hbpm). exact Hbpm.
  - intros Hsteady. apply orb_false_elim in Hsteady as (Hfirst & Hsecond).
    pose proof (reachable_steady_report o PS Hreach Hfirst Hsecond) as Hrep.
    pose proof (inv_steady PS Hinv Hfirst Hsecond) as Hrange.
    pose proof (sum_rate_bounds 251 2500 (rate PS)) as Hsum.
    rewrite (inv_rate_length PS Hinv) in Hsum. change (Z.of_nat 10) with 10 in Hsum.
    assert (Hbounds : 2510 <= sum_rate (rate PS) <= 25000).
    { apply Hsum. eapply Forall_impl; [exact Hrange|]. cbn beta. intros r Hr. lia. }
    assert (Havg : 251 <= sum_rate (rate PS) / 10 <= 2500).
    { split; [apply Z.div_le_lower_bound|apply Z.div_le_upper_bound]; lia. }
    rewrite (rep_BPM PS Hrep). split.
    + apply Z.div_le_lower_bound; lia.
    + assert (60000 / (sum_rate (rate PS) / 10) < 240); [|lia].
      apply Z.div_lt_upper_bound; lia.
Qed.

Lemma beats_per_minute_range_witness :
  exists PS : pulse_sensor_t,
    session LittleEndian steady_session = Some PS /\
    24 <= fst (get_beats_per_minute PS) <= 239.
Proof.
  destruct (session LittleEndian steady_session) as [PS|] eqn:Hrun;
    [|vm_compute in Hrun; discriminate].
  assert (Hreach : reachable LittleEndian PS) by session_reachable_tac.
  exists PS. split; [reflexivity|].
  destruct (beats_per_minute_range LittleEndian PS Hreach) as (_ & Hsteady).
  apply Hsteady. vm_compute in Hrun. injection Hrun as <-. reflexivity.
Defined.

(** X8. In the steady phase of a session the handle is consistent: [BPM]
    is [60000 / (sum of the history / 10)] for the history as stored, the
    IBI that [get_inter_beat_interval] returns is the newest slot of the
    history, and every slot is an interval between 251 and 2500 ms. *)
Theorem steady_readings_consistent (o : byte_order) (PS : pulse_sensor_t) :
  reachable o PS ->
  first_beat PS = false -> second_beat PS = false ->
  BPM PS = 60000 / (sum_rate (rate PS) / 10) /\
  rate PS !! 9%nat = Some (fst (get_inter_beat_interval PS)) /\
  250 < fst (get_inter_beat_interval PS) <= 2500 /\
  length (rate PS) = 10%nat /\
  Forall (fun r => 250 < r <= 2500) (rate PS).
Proof.
  intros Hreach Hfirst Hsecond.
  pose proof (reachable_invariant o PS Hreach) as Hinv.
  destruct (reachable_steady_report o PS Hreach Hfirst Hsecond)
    as [_ Hibi Hnew Hbpm].
  unfold get_inter_beat_interval. cbn [fst].
  split; [exact Hbpm|]. split; [exact Hnew|]. split; [exact Hibi|].
  split; [apply (inv_rate_length PS Hinv)|].
  apply (inv_steady PS Hinv); assumption.
Qed.

Lemma steady_readings_consistent_witness :
  exists PS : pulse_sensor_t,
    session LittleEndian steady_session = Some PS /\
    BPM PS = 60000 / (sum_rate (rate PS) / 10) /\
    rate PS !! 9%nat = Some (fst (get_inter_beat_interval PS)).
Proof.
  destruct (session LittleEndian steady_session) as [PS|] eqn:Hrun;
    [|vm_compute in Hrun; discriminate].
  assert (Hreach : reachable LittleEndian PS) by session_reachable_tac.
  exists PS. split; [reflexivity|].
  destruct (steady_readings_consistent LittleEndian PS Hreach)
    as (Hbpm & Hnew & _);
    try (vm_compute in Hrun; injection Hrun as <-; reflexivity).
  split; assumption.
Defined.

(** ** The beat flag and the adaptive threshold *)

Lemma in_beat_no_edge (PS : pulse_sensor_t) (ms : Z) :
  pulse PS = true -> detects_edge PS ms = false.
Proof.
  intros Hpulse. destruct (detects_edge PS ms) eqn:Hedge; [|reflexivity].
  destruct (detects_edge_true PS ms Hedge) as (_ & _ & _ & Hidle). congruence.
Qed.

(** X9. After a completed call [is_inside_beat] is true only if the
    sample of that call was not below the threshold the call started
    with. *)
Theorem inside_beat_not_below_threshold (PS PS' : pulse_sensor_t) (ms : Z) :
  pulse_sensor_process_sample PS ms = Some PS' ->
  fst (is_inside_beat PS') = true ->
  F32.lt (signal PS) (thresh PS) = false.
Proof.
  intros Hcall. unfold is_inside_beat. cbn [fst]. intros Hin.
  destruct (detection_outcome PS PS' ms Hcall)
    as (Q & (Hsig & _ & Hth & _) & Hway).
  assert (Hafter : pulse (stale_signal_timeout (end_of_beat Q)) = true ->
                   F32.lt (signal PS) (thresh PS) = false).
  { intros Hp.
    destruct (end_of_beat_fields Q) as (Hpulse & _).
    destruct (Z_lt_le_dec 2500 (N (end_of_beat Q))) as [Hgt|Hle].
    - destruct (stale_signal_timeout_taken _ Hgt) as (_ & _ & Hp' & _).
      cbn zeta in Hp'. congruence.
    - rewrite stale_signal_timeout_skipped in Hp by exact Hle.
      rewrite Hpulse, Hsig, Hth in Hp.
      apply andb_prop in Hp as (_ & Hp). apply negb_true_iff in Hp. exact Hp. }
  destruct Hway as [(_ & -> & _)|[(Hedge & _ & -> & _)|(_ & _ & -> & _)]];
    try (apply Hafter; exact Hin).
  destruct (detects_edge_true PS ms Hedge) as (_ & _ & Hgt & _).
  apply F32_gt_not_lt, Hgt.
Qed.

Lemma inside_beat_not_below_threshold_witness :
  exists PS PS' : pulse_sensor_t,
    session LittleEndian first_beat_awaited = Some PS /\
    pulse_sensor_process_sample PS 500 = Some PS' /\
    fst (is_inside_beat PS') = true /\
    F32.lt (signal PS) (thresh PS) = false.
Proof.
  destruct (session LittleEndian first_beat_awaited) as [PS|] eqn:Hrun;
    [|vm_compute in Hrun; discriminate].
  destruct (pulse_sensor_process_sample PS 500) as [PS'|] eqn:Hcall;
    [|vm_compute in Hrun; injection Hrun as <-; vm_compute in Hcall; discriminate].
  assert (Hin : fst (is_inside_beat PS') = true).
  { vm_compute in Hrun. injection Hrun as <-.
    vm_compute in Hcall. injection Hcall as <-. reflexivity. }
  exists PS, PS'. split; [reflexivity|]. split; [exact Hcall|].
  split; [exact Hin|].
  apply (inside_beat_not_below_threshold PS PS' 500 Hcall Hin).
Defined.

(** A completed call that neither ends a beat nor times out leaves what
    the detection block left. *)
Lemma call_without_beat_end (PS PS' : pulse_sensor_t) (ms : Z) :
  pulse_sensor_process_sample PS ms = Some PS' ->
  time_since_last_beat PS ms <= 2500 ->
  pulse PS = false \/ F32.lt (signal PS) (thresh PS) = false ->
  thresh PS' = thresh PS /\ amplitude PS' = amplitude PS /\
  peak PS' = peak (before_detection PS ms) /\
  trough PS' = trough (before_detection PS ms) /\
  (detects_edge PS ms = true -> pulse PS' = true /\
     IBI PS' = u32 (time_since_last_beat PS ms) /\
     last_beat_time PS' = sample_counter PS').
Proof.
  intros Hcall HN Hquiet.
  destruct (detection_outcome PS PS' ms Hcall)
    as (Q & (Hsig & _ & Hth & Hamp & Hpk & Htr & _ & HNQ) & Hway).
  assert (Hskip : F32.lt (signal Q) (thresh Q) && pulse Q = false ->
                  stale_signal_timeout (end_of_beat Q) = Q).
  { intros Hc. rewrite (end_of_beat_skipped Q Hc).
    apply stale_signal_timeout_skipped. lia. }
  destruct Hway
    as [(Hedge & -> & Hpulse & _)
       |[(Hedge & _ & -> & Hpulse & Hibi & Hlbt & _)
       |(Hedge & _ & -> & Hpulse & Hibi & Hlbt & _)]].
  - rewrite Hskip.
    + repeat split; try assumption; rewrite Hedge in *; discriminate.
    + rewrite Hsig, Hth, Hpulse.
      destruct Hquiet as [-> | ->]; [apply andb_false_r|reflexivity].
  - repeat split; assumption.
  - destruct (detects_edge_true PS ms Hedge) as (_ & _ & Hgt & _).
    rewrite Hskip.
    + repeat split; assumption.
    + rewrite Hsig, Hth, (F32_gt_not_lt _ _ Hgt). reflexivity.
Qed.

(** X10. The adaptive threshold and the amplitude change only when a
    beat ends or the timeout runs: a completed call that starts outside
    a beat, or with the sample not below the threshold, and computes
    [N <= 2500], leaves both as they were, also when it detects an
    edge. *)
Theorem threshold_kept_outside_beat_end (PS PS' : pulse_sensor_t) (ms : Z) :
  pulse_sensor_process_sample PS ms = Some PS' ->
  time_since_last_beat PS ms <= 2500 ->
  pulse PS = false \/ F32.lt (signal PS) (thresh PS) = false ->
  thresh PS' = thresh PS /\
  fst (get_pulse_amplitude PS') = amplitude PS.
Proof.
  intros Hcall HN Hquiet.
  destruct (call_without_beat_end PS PS' ms Hcall HN Hquiet) as (Hth & Hamp & _).
  split; assumption.
Qed.

Lemma threshold_kept_outside_beat_end_witness :
  exists PS PS' : pulse_sensor_t,
    session LittleEndian second_beat_awaited = Some PS /\
    pulse_sensor_process_sample PS 780 = Some PS' /\
    detects_edge PS 780 = true /\
    thresh PS' = thresh PS.
Proof.
  destruct (session LittleEndian second_beat_awaited) as [PS|] eqn:Hrun;
    [|vm_compute in Hrun; discriminate].
  destruct (pulse_sensor_process_sample PS 780) as [PS'|] eqn:Hcall;
    [|vm_compute in Hrun; injection Hrun as <-; vm_compute in Hcall; discriminate].
  exists PS, PS'. split; [reflexivity|]. split; [exact Hcall|].
  assert (Hfacts : detects_edge PS 780 = true /\
                   time_since_last_beat PS 780 = 800 /\ pulse PS = false)
    by (vm_compute in Hrun; injection Hrun as <-; repeat split; reflexivity).
  destruct Hfacts as (Hedge & HN & Hpulse).
  split; [exact Hedge|].
  destruct (threshold_kept_outside_beat_end PS PS' 780 Hcall) as (Hth & _);
    [rewrite HN; lia|left; exact Hpulse|exact Hth].
Defined.

(** X11. The end of a beat: a call that starts inside a beat with the
    sample below the threshold, and computes [N <= 2500], completes,
    leaves the beat, stores [peak - trough] as the amplitude that
    [get_pulse_amplitude] returns, moves the threshold to
    [amplitude / 2 + trough] and restarts peak and trough from it.  The
    trough is the one tracked in this call, the peak the one the call
    started with. *)
Theorem beat_end_recentres_threshold (PS : pulse_sensor_t) (ms : Z) :
  pulse PS = true ->
  F32.lt (signal PS) (thresh PS) = true ->
  time_since_last_beat PS ms <= 2500 ->
  exists PS' : pulse_sensor_t,
    pulse_sensor_process_sample PS ms = Some PS' /\
    fst (is_inside_beat PS') = false /\
    fst (get_pulse_amplitude PS') = F32.sub (peak PS) (tracked_trough PS ms) /\
    thresh PS'
    = F32.add (F32.div (amplitude PS') (F32.of_int 2)) (tracked_trough PS ms) /\
    peak PS' = thresh PS' /\ trough PS' = thresh PS' /\
    IBI PS' = IBI PS /\ BPM PS' = BPM PS /\ rate PS' = rate PS.
Proof.
  intros Hpulse Hlt HN.
  destruct (no_edge_call PS ms (in_beat_no_edge PS ms Hpulse)) as (_ & Hcall).
  destruct (before_detection_fields PS ms)
    as (_ & _ & Hsig1 & Hbpm1 & Hibi1 & Hpulse1 & _ & _ & _ & _ & Hrate1 & Hth1 & _).
  destruct (before_detection_envelope PS ms) as (Htr1 & Hpk1).
  rewrite (F32_lt_not_gt _ _ Hlt) in Hpk1. cbn [andb] in Hpk1.
  pose proof (N_before_detection PS ms) as HN1.
  set (P1 := before_detection PS ms) in *.
  destruct (end_of_beat_taken P1) as (Hp & Hamp & Hth & Hpk & Htr);
    [congruence|congruence|].
  destruct (end_of_beat_fields P1)
    as (_ & _ & Hbpm & Hibi & _ & _ & _ & Hrate & _ & HN' & _).
  eexists. split; [exact Hcall|].
  rewrite stale_signal_timeout_skipped by lia.
  unfold is_inside_beat, get_pulse_amplitude. cbn [fst].
  repeat split; congruence.
Qed.

Lemma beat_end_recentres_threshold_witness :
  exists PS' : pulse_sensor_t,
    pulse_sensor_process_sample stale_handle 20 = Some PS' /\
    fst (is_inside_beat PS') = false /\
    peak PS' = thresh PS'.
Proof.
  destruct (beat_end_recentres_threshold stale_handle 20)
    as (PS' & Hcall & Hout & _ & _ & Hpk & _).
  - reflexivity.
  - reflexivity.
  - vm_compute. discriminate.
  - exists PS'. repeat split; assumption.
Defined.

(** X12. A detected edge restarts the beat clock: when a completed call
    detects an edge with [N <= 2500], the handle is inside a beat
    afterwards, [IBI] is [N], the last beat time is the sample clock, and
    the [N] of the next call is that call's [ms]. *)
Theorem edge_restarts_beat_clock (PS PS' : pulse_sensor_t) (ms : Z) :
  pulse_sensor_process_sample PS ms = Some PS' ->
  detects_edge PS ms = true ->
  time_since_last_beat PS ms <= 2500 ->
  fst (is_inside_beat PS') = true /\
  fst (get_inter_beat_interval PS') = time_since_last_beat PS ms /\
  last_beat_time PS' = sample_counter PS' /\
  forall ms' : Z, is_u32 ms' -> time_since_last_beat PS' ms' = ms'.
Proof.
  intros Hcall Hedge HN.
  destruct (detects_edge_true PS ms Hedge) as (H250 & _ & _ & Hidle).
  destruct (call_without_beat_end PS PS' ms Hcall HN (or_introl Hidle))
    as (_ & _ & _ & _ & Hbeat).
  destruct (Hbeat Hedge) as (Hpulse & Hibi & Hlbt).
  unfold is_inside_beat, get_inter_beat_interval. cbn [fst].
  split; [exact Hpulse|]. split.
  - rewrite Hibi. apply u32_small. unfold is_u32. lia.
  - split; [exact Hlbt|]. intros ms' Hms'.
    rewrite time_since_last_beat_gap, Hlbt, u64_sub_diag.
    apply u64_small. unfold is_u32 in Hms'. unfold is_u64.
    change (2 ^ 32) with 4294967296 in Hms'.
    change (2 ^ 64) with 18446744073709551616. lia.
Qed.

Lemma edge_restarts_beat_clock_witness :
  exists PS PS' : pulse_sensor_t,
    session LittleEndian second_beat_awaited = Some PS /\
    pulse_sensor_process_sample PS 780 = Some PS' /\
    fst (get_inter_beat_interval PS') = time_since_last_beat PS 780 /\
    time_since_last_beat PS' 20 = 20.
Proof.
  destruct (session LittleEndian second_beat_awaited) as [PS|] eqn:Hrun;
    [|vm_compute in Hrun; discriminate].
  destruct (pulse_sensor_process_sample PS 780) as [PS'|] eqn:Hcall;
    [|vm_compute in Hrun; injection Hrun as <-; vm_compute in Hcall; discriminate].
  exists PS, PS'. split; [reflexivity|]. split; [exact Hcall|].
  assert (Hfacts : detects_edge PS 780 = true /\ time_since_last_beat PS 780 = 800)
    by (vm_compute in Hrun; injection Hrun as <-; split; reflexivity).
  destruct Hfacts as (Hedge & HN).
  destruct (edge_restarts_beat_clock PS PS' 780 Hcall Hedge) as (_ & Hibi & _ & Hnext);
    [rewrite HN; lia|].
  split; [exact Hibi|]. apply Hnext. unfold is_u32. lia.
Defined.

(** X14. Between beat ends the envelope only widens towards the sample: a
    completed call that does not end a beat and computes [N <= 2500]
    leaves the peak as it was or raises it to the sample, and leaves the
    trough as it was or lowers it to the sample. *)
Theorem envelope_widens (PS PS' : pulse_sensor_t) (ms : Z) :
  pulse_sensor_process_sample PS ms = Some PS' ->
  time_since_last_beat PS ms <= 2500 ->
  pulse PS = false \/ F32.lt (signal PS) (thresh PS) = false ->
  (peak PS' = peak PS \/
   (peak PS' = signal PS /\ F32.gt (signal PS) (peak PS) = true /\
    F32.gt (signal PS) (thresh PS) = true)) /\
  (trough PS' = trough PS \/
   (trough PS' = signal PS /\ F32.lt (signal PS) (trough PS) = true /\
    F32.lt (signal PS) (thresh PS) = true)) /\
  F32.lt (peak PS') (peak PS) = false /\
  F32.lt (trough PS) (trough PS') = false.
Proof.
  intros Hcall HN Hquiet.
  destruct (call_without_beat_end PS PS' ms Hcall HN Hquiet)
    as (_ & _ & Hpk & Htr & _).
  destruct (before_detection_envelope PS ms) as (Htr1 & Hpk1).
  rewrite tracked_trough_eq in Htr1. rewrite Hpk1 in Hpk. rewrite Htr1 in Htr.
  assert (Hpeak : peak PS' = peak PS \/
    (peak PS' = signal PS /\ F32.gt (signal PS) (peak PS) = true /\
     F32.gt (signal PS) (thresh PS) = true)).
  { destruct (F32.gt (signal PS) (thresh PS)); cbn [andb] in Hpk; [|left; exact Hpk].
    destruct (F32.gt (signal PS) (peak PS)); [right; auto|left; exact Hpk]. }
  assert (Htrough : trough PS' = trough PS \/
    (trough PS' = signal PS /\ F32.lt (signal PS) (trough PS) = true /\
     F32.lt (signal PS) (thresh PS) = true)).
  { destruct (F32.lt (signal PS) (thresh PS)); cbn [andb] in Htr; [|left; exact Htr].
    destruct (_ <? _); cbn [andb] in Htr; [|left; exact Htr].
    destruct (F32.lt (signal PS) (trough PS)); [right; auto|left; exact Htr]. }
  split; [exact Hpeak|]. split; [exact Htrough|]. split.
  - destruct Hpeak as [-> |(-> & Hgt & _)]; [apply F32_lt_irrefl|].
    apply F32_gt_not_lt, Hgt.
  - destruct Htrough as [-> |(-> & Hlt & _)]; [apply F32_lt_irrefl|].
    apply F32_lt_asym, Hlt.
Qed.

Lemma envelope_widens_witness :
  exists PS PS' : pulse_sensor_t,
    session LittleEndian first_beat_awaited = Some PS /\
    pulse_sensor_process_sample PS 500 = Some PS' /\
    F32.lt (peak PS') (peak PS) = false /\
    F32.lt (trough PS) (trough PS') = false.
Proof.
  destruct (session LittleEndian first_beat_awaited) as [PS|] eqn:Hrun;
    [|vm_compute in Hrun; discriminate].
  destruct (pulse_sensor_process_sample PS 500) as [PS'|] eqn:Hcall;
    [|vm_compute in Hrun; injection Hrun as <-; vm_compute in Hcall; discriminate].
  exists PS, PS'. split; [reflexivity|]. split; [exact Hcall|].
  assert (Hfacts : time_since_last_beat PS 500 = 500 /\ pulse PS = false)
    by (vm_compute in Hrun; injection Hrun as <-; split; reflexivity).
  destruct Hfacts as (HN & Hpulse).
  destruct (envelope_widens PS PS' 500 Hcall) as (_ & _ & Hpk & Htr);
    [rewrite HN; lia|left; exact Hpulse|].
  split; assumption.
Defined.

(** ** Sessions that never fault *)

Lemma call_completes (PS : pulse_sensor_t) (ms : Z) :
  session_invariant PS ->
  time_since_last_beat PS ms <= 429496729 ->
  exists PS' : pulse_sensor_t, pulse_sensor_process_sample PS ms = Some PS'.
Proof.
  intros Hinv HN.
  destruct (detects_edge PS ms) eqn:Hedge.
  2:{ destruct (no_edge_call PS ms Hedge) as (_ & Hcall). eexists. exact Hcall. }
  pose proof (pulse_sensor_process_sample_cases PS ms) as Hcases.
  cbn zeta in Hcases. rewrite Hedge in Hcases.
  destruct Hcases as [(? & _)|[(_ & _ & _ & Hcall)|[(_ & Hfirst & _)
                     |(_ & _ & _ & _ & Hcall)]]];
    try discriminate; try (eexists; exact Hcall).
  destruct (detects_edge_true PS ms Hedge) as (H250 & _).
  destruct (edge_call PS ms (inv_rate_length PS Hinv) Hedge Hfirst)
    as (_ & _ & Hcall).
  cbn zeta in Hcall.
  rewrite (u32_small (time_since_last_beat PS ms)) in Hcall
    by (unfold is_u32; lia).
  set (ibi := time_since_last_beat PS ms) in *. clearbody ibi.
  destruct Hcall as (P3 & _ & Hcall & _); [|eexists; exact Hcall].
  assert (Htotal :
    251 <= u32 (sum_rate (drop 1 (if second_beat PS then replicate 10 ibi
                                  else rate PS) ++ [ibi])) / 10); [|lia].
  destruct (second_beat PS) eqn:Hsecond.
  - change (drop 1 (replicate 10 ibi) ++ [ibi]) with (replicate 10 ibi).
    rewrite sum_rate_replicate. change (Z.of_nat 10) with 10.
    rewrite u32_small by (unfold is_u32; lia).
    apply Z.div_le_lower_bound; lia.
  - pose proof (steady_history_sum PS Hinv Hfirst Hsecond) as Hsum.
    rewrite sum_rate_snoc.
    rewrite u32_small by (unfold is_u32; lia).
    apply Z.div_le_lower_bound; lia.
Qed.

Lemma run_completes (o : byte_order) (cs : list call) :
  forall PS : pulse_sensor_t,
    session_invariant PS ->
    Forall modest_call cs ->
    exists PS' : pulse_sensor_t, run o cs PS = Some PS'.
Proof.
  induction cs as [|c cs IH]; intros PS Hinv Hmodest; cbn [run].
  - eexists. reflexivity.
  - apply Forall_cons in Hmodest as (Hc & Hmodest).
    assert (Hexec : exists Q : pulse_sensor_t, exec o c PS = Some Q).
    { destruct c as [v|threshold|ms|]; cbn [exec]; try (eexists; reflexivity).
      apply call_completes; [exact Hinv|].
      cbn [modest_call] in Hc.
      rewrite time_since_last_beat_gap.
      pose proof (inv_gap PS Hinv) as Hgap.
      pose proof (u64_range (sample_counter PS - last_beat_time PS)) as Hpos.
      unfold is_u64 in Hpos.
      rewrite u64_small; [lia|]. unfold is_u64.
      change (2 ^ 64) with 18446744073709551616 in *. lia. }
    destruct Hexec as (Q & Hexec). rewrite Hexec.
    apply IH; [|exact Hmodest]. eapply exec_invariant; eassumption.
Qed.

(** X13. A session never faults when every [ms] argument is at most
    429494229: from [heart_rate_init] on any handle, every call of such a
    session completes, so the division of line 191 never has a zero
    divisor. *)
Theorem session_never_faults (o : byte_order) (PS0 : pulse_sensor_t) (cs : list call) :
  well_typed PS0 ->
  Forall modest_call cs ->
  exists PS : pulse_sensor_t, run o cs (heart_rate_init o PS0) = Some PS.
Proof.
  intros Hwt Hmodest. apply run_completes; [|exact Hmodest].
  apply reset_variables_invariant, Hwt.
Qed.

Lemma session_never_faults_witness :
  exists PS : pulse_sensor_t,
    run LittleEndian (steady_session ++ [call_process_sample 429494229])
      (heart_rate_init LittleEndian stale_handle) = Some PS.
Proof.
  apply (session_never_faults LittleEndian stale_handle).
  - apply stale_handle_well_typed.
  - repeat constructor; cbn; lia.
Defined.

(** ** Before the first edge *)

(** X15. Until a call of the session detects an edge, the first beat
    stays awaited, through timeouts and resets as well, [BPM] reads 0
    and the edge flag is clear. *)
Theorem nothing_reported_before_first_edge
    (o : byte_order) (PS0 PS : pulse_sensor_t) (cs : list call) :
  well_typed PS0 ->
  run o cs (heart_rate_init o PS0) = Some PS ->
  no_edge_so_far o cs (heart_rate_init o PS0) = true ->
  first_beat PS = true /\
  fst (get_beats_per_minute PS) = 0 /\
  fst (saw_start_of_beat PS) = false.
Proof.
  intros Hwt Hrun Hquiet.
  assert (Hfirst : first_beat PS = true).
  { apply (first_beat_awaited_until_edge o cs (heart_rate_init o PS0) PS);
      [destruct PS0; reflexivity|exact Hquiet|exact Hrun]. }
  assert (Hinv : session_invariant PS).
  { apply (run_invariant o cs (heart_rate_init o PS0) PS); [|exact Hrun].
    apply reset_variables_invariant, Hwt. }
  destruct (inv_warm_up PS Hinv (or_introl Hfirst)) as (Hsob & Hbpm).
  unfold get_beats_per_minute, saw_start_of_beat. cbn [fst].
  repeat split; assumption.
Qed.

Lemma nothing_reported_before_first_edge_witness :
  exists PS : pulse_sensor_t,
    session LittleEndian long_uptime = Some PS /\
    first_beat PS = true /\ fst (get_beats_per_minute PS) = 0.
Proof.
  destruct (session LittleEndian long_uptime) as [PS|] eqn:Hrun;
    [|vm_compute in Hrun; discriminate].
  exists PS. split; [reflexivity|].
  destruct (nothing_reported_before_first_edge LittleEndian stale_handle PS
              long_uptime stale_handle_well_typed Hrun) as (Hfirst & Hbpm & _).
  - vm_compute. reflexivity.
  - split; assumption.
Defined.

(** ** The dichrotic window *)

(** X16. The window [(IBI/5)*3] of lines 141 and 159 never wraps in
    32 bits, and it is 60 percent of the IBI rounded down by less than
    3 ms. *)
Theorem dichrotic_window_bounds (PS : pulse_sensor_t) :
  is_u32 (IBI PS) ->
  dichrotic_window PS = IBI PS / 5 * 3 /\
  3 * IBI PS - 12 <= 5 * dichrotic_window PS <= 3 * IBI PS.
Proof.
  intros Hibi. rewrite (dichrotic_window_eq PS Hibi). split; [reflexivity|].
  unfold is_u32 in Hibi. Z.div_mod_to_equations. lia.
Qed.

Lemma dichrotic_window_bounds_witness :
  dichrotic_window stale_handle = 480 /\
  3 * 800 - 12 <= 5 * dichrotic_window stale_handle <= 3 * 800.
Proof.
  destruct (dichrotic_window_bounds stale_handle) as (Heq & Hbounds).
  - unfold is_u32. cbn. lia.
  - split; [rewrite Heq; reflexivity|exact Hbounds].
Defined.

(** ** Configuration and initialisation *)

(** X17. [set_threshold] and [heart_rate_init] commute: setting the
    threshold before the initialisation or after it leaves the same
    handle, with the setting and the live threshold both at the new
    value. *)
Theorem set_threshold_commutes_with_init
    (o : byte_order) (PS : pulse_sensor_t) (threshold : F32.t) :
  set_threshold (heart_rate_init o PS) threshold
  = heart_rate_init o (set_threshold PS threshold) /\
  thresh (heart_rate_init o (set_threshold PS threshold)) = threshold /\
  thresh_setting (heart_rate_init o (set_threshold PS threshold)) = threshold.
Proof. destruct PS. repeat split. Qed.

(** ** The stale-signal timeout *)

(** While the warm-up lasts nothing is reported: from a handle that
    awaits the first beat with at most one edge to come, or the second
    beat with no edge to come, [BPM] stays 0 and the edge flag clear. *)
Lemma warm_up_reports_nothing (o : byte_order) (cs : list call) :
  forall PS PS' : pulse_sensor_t,
    run o cs PS = Some PS' ->
    (first_beat PS = true /\ second_beat PS = false /\
     (edges_detected o cs PS <= 1)%nat)
    \/ (first_beat PS = false /\ second_beat PS = true /\
        edges_detected o cs PS = O) ->
    BPM PS = 0 -> start_of_beat PS = false ->
    BPM PS' = 0 /\ start_of_beat PS' = false /\
    (first_beat PS' = true \/ second_beat PS' = true).
Proof.
  induction cs as [|c cs IH]; intros PS PS' Hrun Hphase Hbpm Hsob;
    cbn [run edges_detected] in *.
  - injection Hrun as <-. split; [exact Hbpm|]. split; [exact Hsob|].
    destruct Hphase as [(Hf & _)|(_ & Hs & _)]; [left|right]; assumption.
  - destruct (exec o c PS) as [Q|] eqn:Hexec; [|discriminate].
    destruct c as [v|threshold|ms|]; cbn [exec] in Hexec.
    + injection Hexec as <-. apply (IH _ PS' Hrun); destruct PS; assumption.
    + injection Hexec as <-. apply (IH _ PS' Hrun); destruct PS; assumption.
    + destruct (detection_outcome PS Q ms Hexec) as (Q0 & _ & Hway).
      destruct Hway
        as [(Hedge & -> & _ & _ & _ & Hfb & Hsb & Hsob0 & Hbpm0 & _)
           |[(Hedge & Hfirst & -> & _ & _ & _ & Hfb & Hsb & Hsob0 & Hbpm0)
           |(Hedge & Hfirst & _)]];
        rewrite Hedge in Hphase.
      * destruct (after_detection_flags Q0)
          as [(_ & Hfb' & Hsb' & Hsob' & Hbpm' & _)|(_ & Hout & _)];
          cbn zeta in *.
        -- apply (IH _ PS' Hrun); [|congruence|congruence].
           rewrite Hfb', Hsb', Hfb, Hsb. exact Hphase.
        -- destruct Hout as (Hb & _ & _ & _ & _ & Hs & _ & _ & _ & Hf' & Hs').
           apply (IH _ PS' Hrun); [|exact Hb|exact Hs].
           left. split; [exact Hf'|]. split; [exact Hs'|].
           destruct Hphase as [(_ & _ & Hn)|(_ & _ & Hn)]; cbn in Hn; lia.
      * apply (IH _ PS' Hrun); [|congruence|congruence].
        right. split; [exact Hfb|]. split; [exact Hsb|].
        destruct Hphase as [(_ & _ & Hn)|(Hf & _)]; [cbn in Hn; lia|congruence].
      * destruct Hphase as [(Hf & _)|(_ & _ & Hn)]; [congruence|discriminate Hn].
    + injection Hexec as <-.
      apply (IH _ PS' Hrun); [|destruct PS; reflexivity|destruct PS; reflexivity].
      left. split; [destruct PS; reflexivity|]. split; [destruct PS; reflexivity|].
      destruct Hphase as [(_ & _ & Hn)|(_ & _ & Hn)]; cbn in Hn; lia.
Qed.

Lemma timed_out_awaits_two_edges (PS : pulse_sensor_t) :
  timed_out PS -> awaits_two_edges PS.
Proof.
  intros (Hbpm & _ & _ & _ & _ & Hsob & _ & _ & _ & Hfirst & Hsecond).
  intros o cs PS' Hrun Hedges.
  apply (warm_up_reports_nothing o cs PS PS' Hrun); [|exact Hbpm|exact Hsob].
  left. split; [exact Hfirst|]. split; [exact Hsecond|]. lia.
Qed.

(** C7. Timeout re-acquisition: from any handle, when a call computes
    [N > 2500] and detects no edge, then after the call the fields are
    as the timeout block writes them, the history is as it was, and the
    first beat is awaited: two fresh edges are needed before a BPM is
    produced again.  When the call detects an edge outside the
    first-beat branch and its division is defined, the same holds
    except that the history is the one the edge branch wrote; when the
    divisor is zero the call faults.  When the call detects an edge with
    [first_beat] set, it returns from the first-beat branch before the
    timeout block, with the beat recorded and the second beat awaited. *)
Theorem timeout_reacquisition (PS : pulse_sensor_t) (ms : Z) :
  well_typed PS ->
  2500 < time_since_last_beat PS ms ->
  let ibi := u32 (time_since_last_beat PS ms) in
  let seeded := if second_beat PS then replicate 10 ibi else rate PS in
  (detects_edge PS ms = false ->
   exists PS' : pulse_sensor_t,
     pulse_sensor_process_sample PS ms = Some PS' /\
     timed_out PS' /\ rate PS' = rate PS /\ awaits_two_edges PS') /\
  (detects_edge PS ms = true -> first_beat PS = false ->
   bpm_divisor PS ms <> Some 0 ->
   exists PS' : pulse_sensor_t,
     pulse_sensor_process_sample PS ms = Some PS' /\
     timed_out PS' /\ rate PS' = drop 1 seeded ++ [ibi] /\
     awaits_two_edges PS') /\
  (detects_edge PS ms = true -> first_beat PS = false ->
   bpm_divisor PS ms = Some 0 ->
   pulse_sensor_process_sample PS ms = None) /\
  (detects_edge PS ms = true -> first_beat PS = true ->
   exists PS' : pulse_sensor_t,
     pulse_sensor_process_sample PS ms = Some PS' /\
     detect_beat (before_detection PS ms) = Return PS' /\
     ~ timed_out PS' /\
     pulse PS' = true /\ IBI PS' = ibi /\
     last_beat_time PS' = sample_counter PS' /\
     first_beat PS' = false /\ second_beat PS' = true /\
     rate PS' = seeded /\ BPM PS' = BPM PS /\
     start_of_beat PS' = start_of_beat PS).
Proof.
  intros Hwt HN. cbn zeta.
  pose proof (wt_rate_length PS Hwt) as Hlen.
  pose proof (N_before_detection PS ms) as HN1.
  split; [|split; [|split]].
  - intros Hedge. destruct (no_edge_call PS ms Hedge) as (_ & Hcall).
    rewrite <- HN1 in HN.
    destruct (after_detection_timeout _ HN) as (Hout & Hrate & _).
    destruct (before_detection_fields PS ms)
      as (_ & _ & _ & _ & _ & _ & _ & _ & _ & _ & Hrate1 & _).
    eexists. split; [exact Hcall|]. split; [exact Hout|].
    split; [congruence|]. apply timed_out_awaits_two_edges, Hout.
  - intros Hedge Hfirst Hdiv.
    destruct (edge_call PS ms Hlen Hedge Hfirst) as (Hdiv' & _ & Hcall).
    cbn zeta in Hdiv', Hcall. rewrite Hdiv' in Hdiv.
    destruct Hcall as (P3 & _ & Hcall & Hrate3 & _ & _ & _ & _ & _ & HN3 & _);
      [congruence|].
    rewrite <- HN3 in HN.
    destruct (after_detection_timeout _ HN) as (Hout & Hrate & _).
    eexists. split; [exact Hcall|]. split; [exact Hout|].
    split; [congruence|]. apply timed_out_awaits_two_edges, Hout.
  - intros Hedge Hfirst Hdiv.
    destruct (edge_call PS ms Hlen Hedge Hfirst) as (Hdiv' & Hzero & _).
    cbn zeta in Hdiv', Hzero. rewrite Hdiv' in Hdiv.
    apply (inj Some) in Hdiv. apply (Hzero Hdiv).
  - intros Hedge Hfirst.
    pose proof (pulse_sensor_process_sample_cases PS ms) as Hcases.
    cbn zeta in Hcases. rewrite Hedge, Hfirst in Hcases.
    destruct Hcases as [(? & _)|[(_ & _ & Hflow & Hcall)|[(_ & ? & _)|(_ & ? & _)]]];
      try discriminate.
    destruct (before_detection_fields PS ms)
      as (Hsc1 & HN1' & _ & Hbpm1 & _ & _ & Hsob1 & _ & _ & Hlbt1 & Hrate1 & _
          & _ & Hsb1).
    set (P1 := before_detection PS ms) in *.
    destruct (register_beat_fields P1)
      as (Hpulse2 & Hibi2 & Hlbt2 & _ & Hrate2 & _ & Hbpm2 & Hsob2 & _ & _ & Hsc2 & _).
    assert (Hibi : IBI (register_beat P1) = u32 (time_since_last_beat PS ms)).
    { rewrite Hibi2, <- HN1, HN1', Hsc1, Hlbt1. reflexivity. }
    assert (Hrate : rate (register_beat P1)
                    = if second_beat PS
                      then replicate 10 (u32 (time_since_last_beat PS ms))
                      else rate PS).
    { rewrite Hrate2, Hsb1, Hrate1, Hibi. destruct (second_beat PS); [|reflexivity].
      apply seed_rate_full, Hlen. }
    eexists. split; [exact Hcall|]. split; [exact Hflow|].
    destruct (register_beat P1). simpl_fields.
    split; [intros (_ & _ & _ & _ & _ & _ & _ & _ & _ & Hf & _); discriminate Hf|].
    repeat split; congruence.
Qed.

Lemma timeout_reacquisition_witness :
  exists PS' PS'' : pulse_sensor_t,
    pulse_sensor_process_sample stale_handle 3000 = Some PS' /\
    timed_out PS' /\ rate PS' = rate stale_handle /\
    run LittleEndian [store_signal volts_1; call_process_sample 500] PS' = Some PS'' /\
    BPM PS'' = 0 /\ start_of_beat PS'' = false.
Proof.
  destruct (timeout_reacquisition stale_handle 3000 stale_handle_well_typed)
    as (Hquiet & _).
  - vm_compute. reflexivity.
  - destruct Hquiet as (PS' & Hcall & Hout & Hrate & Hwait);
      [vm_compute; reflexivity|].
    destruct (run LittleEndian [store_signal volts_1; call_process_sample 500] PS')
      as [PS''|] eqn:Hrun;
      [|vm_compute in Hcall; injection Hcall as <-; vm_compute in Hrun; discriminate].
    exists PS', PS''. split; [exact Hcall|]. split; [exact Hout|].
    split; [exact Hrate|]. split; [exact Hrun|].
    destruct (Hwait LittleEndian _ PS'' Hrun) as (Hbpm & Hsob & _).
    + vm_compute in Hcall. injection Hcall as <-. vm_compute. lia.
    + split; assumption.
Defined.

(** C7, as stated for every call with [N > 2500]: a first edge 3000 ms
    into the session returns from the [first_beat] branch before the
    timeout block, so [IBI] is 3000 and [pulse] is set; and in the session
    [steady_session] an edge 2520 ms after the last one shifts the history
    before the timeout block runs. *)
Lemma timeout_skipped_or_history_shifted :
  (exists PS PS' : pulse_sensor_t,
     session LittleEndian first_beat_awaited = Some PS /\
     reachable LittleEndian PS /\
     time_since_last_beat PS 3000 = 3000 /\
     pulse_sensor_process_sample PS 3000 = Some PS' /\
     IBI PS' = 3000 /\ pulse PS' = true /\
     first_beat PS' = false /\ second_beat PS' = true /\
     ~ timed_out PS') /\
  (exists PS PS' : pulse_sensor_t,
     session LittleEndian steady_session = Some PS /\
     reachable LittleEndian PS /\
     time_since_last_beat PS 2500 = 2520 /\
     pulse_sensor_process_sample PS 2500 = Some PS' /\
     timed_out PS' /\
     rate PS = replicate 10 800 /\
     rate PS' = [800; 800; 800; 800; 800; 800; 800; 800; 800; 2520] /\
     rate PS' <> rate PS).
Proof.
  split.
  - destruct (session LittleEndian first_beat_awaited) as [PS|] eqn:Hrun;
      [|vm_compute in Hrun; discriminate].
    assert (Hreach : reachable LittleEndian PS) by session_reachable_tac.
    vm_compute in Hrun. injection Hrun as <-.
    eexists. eexists. split; [reflexivity|]. split; [exact Hreach|].
    split; [reflexivity|]. split; [vm_compute; reflexivity|].
    cbn. repeat split; try reflexivity.
    intros (_ & Hibi & _). discriminate Hibi.
  - destruct (session LittleEndian steady_session) as [PS|] eqn:Hrun;
      [|vm_compute in Hrun; discriminate].
    assert (Hreach : reachable LittleEndian PS) by session_reachable_tac.
    vm_compute in Hrun. injection Hrun as <-.
    eexists. eexists. split; [reflexivity|]. split; [exact Hreach|].
    split; [reflexivity|]. split; [vm_compute; reflexivity|].
    unfold timed_out. cbn. repeat split; try reflexivity. discriminate.
Qed.
